(** * The generic buyer skill: transaction scheduler and search behaviour

    A shallow embedding of
    [packages/fetchai/skills/generic_buyer/behaviours.py]: the
    [GenericTransactionBehaviour] (a queue of pending requests, one
    in-flight slot, timeout-driven requeueing, retry on failure) and the
    [act] of the [GenericSearchBehaviour].

    Times are Python floats, that is IEEE binary64 numbers: they are
    modelled by Rocq's primitive floats, whose [add] and [leb] are the
    same operations as Python's [+] and [<=] on floats. *)

From Stdlib Require Import PrimFloat.
From stdpp Require Import gmap strings list.

(** ** What the behaviours are parameterised by

    The dialogue and message classes live outside [behaviours.py]; the
    behaviours only move their values around, read [terms] from a FIPA
    dialogue and [dialogue_label] from a ledger API dialogue.  Nothing is
    assumed about them beyond decidable equality (object identity of the
    requests, hashing of the labels kept in a Python [set]). *)
Class Protocols := {
  Terms : Type;
  Query : Type;
  FipaDialogue : Type;
  FipaDialogue_eq_dec :: EqDecision FipaDialogue;
  terms : FipaDialogue → Terms;
  DialogueLabel : Type;
  DialogueLabel_eq_dec :: EqDecision DialogueLabel;
  DialogueLabel_countable :: Countable DialogueLabel;
  LedgerApiMessage : Type;
  OefSearchMessage : Type;
}.

Section Data.
Context `{!Protocols}.

(** A ledger API dialogue as the scheduler sees it: its label, and the
    FIPA dialogue attached to it at line 166 of [_start_processing]. *)
Record LedgerApiDialogue := {
  dialogue_label : DialogueLabel;
  associated_fipa_dialogue : FipaDialogue;
}.

Global Instance LedgerApiDialogue_eq_dec : EqDecision LedgerApiDialogue.
Proof. solve_decision. Defined.

(** The performative and keyword arguments handed to
    [ledger_api_dialogues.create] and [oef_search_dialogues.create]. *)
Inductive LedgerApiRequest :=
  | GET_RAW_TRANSACTION (tx_terms : Terms).

Inductive OefSearchRequest :=
  | SEARCH_SERVICES (query : Query).

(** Messages put in the outbox. *)
Inductive Message :=
  | LedgerApiMsg (m : LedgerApiMessage)
  | OefSearchMsg (m : OefSearchMessage).

(** Records written to [self.context.logger]; the text of each f-string is
    kept as its level, its call site and the values it interpolates. *)
Inductive LogRecord :=
  | InfoSkippingSearch (remaining_transactions_count : nat)
  | InfoProcessingTransaction (remaining : nat)
  | InfoRequestingTransfer (m : LedgerApiMessage)
  | DebugTimeoutDialogue (d : LedgerApiDialogue).

(** The attributes of a [GenericTransactionBehaviour] instance. *)
Record GenericTransactionBehaviour := {
  tick_interval : float;
  max_processing : float;
  processing_time : float;
  waiting : list FipaDialogue;
  processing : option LedgerApiDialogue;
  timedout : gset DialogueLabel;
}.

Definition DEFAULT_MAX_PROCESSING : float := 120%float.
Definition DEFAULT_TX_INTERVAL : float := 2%float.
Definition DEFAULT_SEARCH_INTERVAL : float := 5%float.

(** [GenericTransactionBehaviour.__init__]: the two keyword arguments are
    popped with their defaults. *)
Definition __init__ (transaction_interval max_processing_kw : option float)
  : GenericTransactionBehaviour :=
  {| tick_interval := default DEFAULT_TX_INTERVAL transaction_interval;
     max_processing := default DEFAULT_MAX_PROCESSING max_processing_kw;
     processing_time := 0%float;
     waiting := [];
     processing := None;
     timedout := ∅ |}.

Definition set_processing_time (t : float) (b : GenericTransactionBehaviour)
  : GenericTransactionBehaviour :=
  {| tick_interval := tick_interval b;
     max_processing := max_processing b;
     processing_time := t;
     waiting := waiting b;
     processing := processing b;
     timedout := timedout b |}.

Definition set_waiting (w : list FipaDialogue) (b : GenericTransactionBehaviour)
  : GenericTransactionBehaviour :=
  {| tick_interval := tick_interval b;
     max_processing := max_processing b;
     processing_time := processing_time b;
     waiting := w;
     processing := processing b;
     timedout := timedout b |}.

Definition set_processing (p : option LedgerApiDialogue)
  (b : GenericTransactionBehaviour) : GenericTransactionBehaviour :=
  {| tick_interval := tick_interval b;
     max_processing := max_processing b;
     processing_time := processing_time b;
     waiting := waiting b;
     processing := p;
     timedout := timedout b |}.

Definition set_timedout (t : gset DialogueLabel)
  (b : GenericTransactionBehaviour) : GenericTransactionBehaviour :=
  {| tick_interval := tick_interval b;
     max_processing := max_processing b;
     processing_time := processing_time b;
     waiting := waiting b;
     processing := processing b;
     timedout := t |}.

End Data.

(** ** The framework around the behaviours

    The dialogue registries, the strategy and the comparison of dialogue
    objects are declared in modules that are not part of these sources;
    they are parameters of the model and nothing is assumed about them.
    - [dialogue_eqb] is Python's [==] on two ledger API dialogues;
    - [ledger_api_create] and [oef_search_create] are the registries'
      [create]: from the registry, the counterparty and the request they
      give the first message, the new dialogue (for the ledger API, its
      label) and the registry with the dialogue stored;
    - [LEDGER_API_ADDRESS] is [str(LEDGER_CONNECTION_PUBLIC_ID)]. *)
Class Collaborators `{!Protocols} := {
  LedgerApiDialogues : Type;
  OefSearchDialogues : Type;
  GenericStrategy : Type;
  LEDGER_API_ADDRESS : string;
  dialogue_eqb : LedgerApiDialogue → LedgerApiDialogue → bool;
  ledger_api_create :
    LedgerApiDialogues → string → LedgerApiRequest →
    LedgerApiMessage * DialogueLabel * LedgerApiDialogues;
  oef_search_create :
    OefSearchDialogues → string → OefSearchRequest →
    OefSearchMessage * OefSearchDialogues;
  is_searching : GenericStrategy → bool;
  update_search_query_params : GenericStrategy → GenericStrategy;
  get_location_and_service_query : GenericStrategy → Query * GenericStrategy;
}.

Section Skill.
Context `{!Protocols, !Collaborators}.

(** [self.context]: what the two behaviours reach through the skill
    context, [transaction] being [self.context.behaviours.transaction]. *)
Record SkillContext := {
  strategy : GenericStrategy;
  ledger_api_dialogues : LedgerApiDialogues;
  oef_search_dialogues : OefSearchDialogues;
  search_service_address : string;
  outbox : list Message;
  logger : list LogRecord;
  transaction : GenericTransactionBehaviour;
}.

Definition set_strategy (x : GenericStrategy) (c : SkillContext) : SkillContext :=
  {| strategy := x;
     ledger_api_dialogues := ledger_api_dialogues c;
     oef_search_dialogues := oef_search_dialogues c;
     search_service_address := search_service_address c;
     outbox := outbox c;
     logger := logger c;
     transaction := transaction c |}.

Definition set_ledger_api_dialogues (x : LedgerApiDialogues) (c : SkillContext)
  : SkillContext :=
  {| strategy := strategy c;
     ledger_api_dialogues := x;
     oef_search_dialogues := oef_search_dialogues c;
     search_service_address := search_service_address c;
     outbox := outbox c;
     logger := logger c;
     transaction := transaction c |}.

Definition set_oef_search_dialogues (x : OefSearchDialogues) (c : SkillContext)
  : SkillContext :=
  {| strategy := strategy c;
     ledger_api_dialogues := ledger_api_dialogues c;
     oef_search_dialogues := x;
     search_service_address := search_service_address c;
     outbox := outbox c;
     logger := logger c;
     transaction := transaction c |}.

Definition set_outbox (x : list Message) (c : SkillContext) : SkillContext :=
  {| strategy := strategy c;
     ledger_api_dialogues := ledger_api_dialogues c;
     oef_search_dialogues := oef_search_dialogues c;
     search_service_address := search_service_address c;
     outbox := x;
     logger := logger c;
     transaction := transaction c |}.

Definition set_logger (x : list LogRecord) (c : SkillContext) : SkillContext :=
  {| strategy := strategy c;
     ledger_api_dialogues := ledger_api_dialogues c;
     oef_search_dialogues := oef_search_dialogues c;
     search_service_address := search_service_address c;
     outbox := outbox c;
     logger := x;
     transaction := transaction c |}.

Definition set_transaction (x : GenericTransactionBehaviour) (c : SkillContext)
  : SkillContext :=
  {| strategy := strategy c;
     ledger_api_dialogues := ledger_api_dialogues c;
     oef_search_dialogues := oef_search_dialogues c;
     search_service_address := search_service_address c;
     outbox := outbox c;
     logger := logger c;
     transaction := x |}.

(** ** Methods as state transformers that may raise *)

Inductive exn := ValueError | IndexError | KeyError.

Inductive outcome (A : Type) :=
  | Returned (a : A)
  | Raised (e : exn).
Global Arguments Returned {A} a.
Global Arguments Raised {A} e.

(** A method run from a skill context returns or raises, and leaves the
    context as it was mutated up to that point. *)
Definition M (A : Type) : Type := SkillContext → outcome A * SkillContext.

Definition ret {A} (a : A) : M A := λ c, (Returned a, c).

Definition raise {A} (e : exn) : M A := λ c, (Raised e, c).

Definition bind {A B} (m : M A) (k : A → M B) : M B :=
  λ c, match m c with
       | (Returned a, c') => k a c'
       | (Raised e, c') => (Raised e, c')
       end.

Definition get : M SkillContext := λ c, (Returned c, c).

Definition modify (f : SkillContext → SkillContext) : M unit :=
  λ c, (Returned tt, f c).

End Skill.

Declare Scope py_scope.
Delimit Scope py_scope with py.
Notation "x <- m ;; k" := (bind m (λ x, k))
  (at level 100, m at next level, right associativity) : py_scope.
Notation "m ;; k" := (bind m (λ _, k))
  (at level 100, right associativity) : py_scope.

(** ** [GenericTransactionBehaviour]: the methods *)
Module TransactionBehaviour.
Section Methods.
Context `{!Protocols, !Collaborators}.
Local Open Scope py_scope.

Definition self : M GenericTransactionBehaviour :=
  λ c, (Returned (transaction c), c).

Definition modify_self
  (f : GenericTransactionBehaviour → GenericTransactionBehaviour) : M unit :=
  modify (λ c, set_transaction (f (transaction c)) c).

(** [self.context.logger.info(...)] / [.debug(...)] *)
Definition log (r : LogRecord) : M unit :=
  modify (λ c, set_logger (logger c ++ [r]) c).

(** [self.context.outbox.put_message(message=...)] *)
Definition put_message (m : Message) : M unit :=
  modify (λ c, set_outbox (outbox c ++ [m]) c).

(** [ledger_api_dialogues.create(counterparty=..., performative=..., ...)] *)
Definition create (counterparty : string) (request : LedgerApiRequest)
  : M (LedgerApiMessage * DialogueLabel) :=
  λ c, let '(msg, lbl, registry) :=
         ledger_api_create (ledger_api_dialogues c) counterparty request in
       (Returned (msg, lbl), set_ledger_api_dialogues registry c).

(** [self.waiting.pop(0)]: raises [IndexError] on an empty list. *)
Definition waiting_pop0 : M FipaDialogue :=
  b <- self ;;
  match waiting b with
  | [] => raise IndexError
  | fipa_dialogue :: rest =>
      modify_self (set_waiting rest) ;; ret fipa_dialogue
  end.

(** [self.timedout.remove(label)]: raises [KeyError] on a missing element. *)
Definition timedout_remove (label : DialogueLabel) : M unit :=
  b <- self ;;
  if decide (label ∈ timedout b)
  then modify_self (set_timedout (timedout b ∖ {[label]}))
  else raise KeyError.

(** Python's [self.processing == ledger_api_dialogue]; [None] is equal to
    no dialogue. *)
Definition processing_eq (p : option LedgerApiDialogue) (d : LedgerApiDialogue)
  : bool :=
  match p with
  | Some p => dialogue_eqb p d
  | None => false
  end.

(** Lines 151-172. *)
Definition _start_processing : M unit :=
  fipa_dialogue <- waiting_pop0 ;;
  b <- self ;;
  log (InfoProcessingTransaction (length (waiting b))) ;;
  created <- create LEDGER_API_ADDRESS (GET_RAW_TRANSACTION (terms fipa_dialogue)) ;;
  let ledger_api_msg := created.1 in
  let ledger_api_dialogue :=
    {| dialogue_label := created.2;
       associated_fipa_dialogue := fipa_dialogue |} in
  modify_self (set_processing_time 0%float) ;;
  modify_self (set_processing (Some ledger_api_dialogue)) ;;
  log (InfoRequestingTransfer ledger_api_msg) ;;
  put_message (LedgerApiMsg ledger_api_msg).

(** Lines 178-185. *)
Definition _timeout_processing : M unit :=
  b <- self ;;
  match processing b with
  | None => ret tt
  | Some p =>
      modify_self (λ b, set_timedout ({[dialogue_label p]} ∪ timedout b) b) ;;
      modify_self (λ b, set_waiting (waiting b ++ [associated_fipa_dialogue p]) b) ;;
      modify_self (set_processing_time 0%float) ;;
      modify_self (set_processing None)
  end.

(** Lines 146-149: what [act] does once the slot is known to be free. *)
Definition act_idle : M unit :=
  b <- self ;;
  if decide (length (waiting b) = 0)
  then ret tt
  else _start_processing.

(** Lines 134-149. *)
Definition act : M unit :=
  b <- self ;;
  match processing b with
  | Some _ =>
      if (processing_time b <=? max_processing b)%float
      then modify_self (set_processing_time (processing_time b + tick_interval b)%float)
      else (_timeout_processing ;; act_idle)
  | None => act_idle
  end.

(** Lines 187-205. *)
Definition finish_processing (ledger_api_dialogue : LedgerApiDialogue) : M unit :=
  b <- self ;;
  if processing_eq (processing b) ledger_api_dialogue
  then
    modify_self (set_processing_time 0%float) ;;
    modify_self (set_processing None)
  else if decide (dialogue_label ledger_api_dialogue ∉ timedout b)
  then raise ValueError
  else
    timedout_remove (dialogue_label ledger_api_dialogue) ;;
    log (DebugTimeoutDialogue ledger_api_dialogue).

(** Lines 207-216. *)
Definition failed_processing (ledger_api_dialogue : LedgerApiDialogue) : M unit :=
  finish_processing ledger_api_dialogue ;;
  modify_self
    (λ b, set_waiting (waiting b ++ [associated_fipa_dialogue ledger_api_dialogue]) b).

End Methods.
End TransactionBehaviour.

(** ** [GenericSearchBehaviour.act] *)
Module SearchBehaviour.
Section Methods.
Context `{!Protocols, !Collaborators}.
Local Open Scope py_scope.

(** [strategy.get_location_and_service_query()] *)
Definition location_and_service_query : M Query :=
  λ c, let '(query, st) := get_location_and_service_query (strategy c) in
       (Returned query, set_strategy st c).

(** [oef_search_dialogues.create(counterparty=..., performative=..., query=...)] *)
Definition create (counterparty : string) (request : OefSearchRequest)
  : M OefSearchMessage :=
  λ c, let '(msg, registry) :=
         oef_search_create (oef_search_dialogues c) counterparty request in
       (Returned msg, set_oef_search_dialogues registry c).

(** Lines 74-102. *)
Definition act : M unit :=
  c <- get ;;
  if negb (is_searching (strategy c))
  then ret tt
  else
    let remaining_transactions_count := length (waiting (transaction c)) in
    if decide (0 < remaining_transactions_count)
    then TransactionBehaviour.log (InfoSkippingSearch remaining_transactions_count)
    else
      modify (λ c, set_strategy (update_search_query_params (strategy c)) c) ;;
      query <- location_and_service_query ;;
      oef_search_msg <- create (search_service_address c) (SEARCH_SERVICES query) ;;
      TransactionBehaviour.put_message (OefSearchMsg oef_search_msg).

End Methods.
End SearchBehaviour.

(** ** Sequences of scheduler operations *)
Section Operations.
Context `{!Protocols, !Collaborators}.

(** What happens to the transaction behaviour over time: the ticker calls
    [act], the ledger API handler reports a reply or a failure for a
    dialogue, and a request is appended to the public [waiting] list by
    whoever wants it submitted. *)
Inductive Op :=
  | Tick
  | Reply (d : LedgerApiDialogue)
  | Failure (d : LedgerApiDialogue)
  | Enqueue (fipa_dialogue : FipaDialogue).

Definition exec (op : Op) : M unit :=
  match op with
  | Tick => TransactionBehaviour.act
  | Reply d => TransactionBehaviour.finish_processing d
  | Failure d => TransactionBehaviour.failed_processing d
  | Enqueue f =>
      TransactionBehaviour.modify_self (λ b, set_waiting (waiting b ++ [f]) b)
  end.

(** The context an operation leaves behind, whether it returned or raised. *)
Definition step (c : SkillContext) (op : Op) : SkillContext := (exec op c).2.

Definition run (ops : list Op) (c : SkillContext) : SkillContext :=
  foldl step c ops.

(** [n] consecutive ticks. *)
Definition ticks (n : nat) (c : SkillContext) : SkillContext :=
  run (replicate n Tick) c.

(** How many requests the slot holds. *)
Definition in_flight (c : SkillContext) : nat :=
  length (option_list (processing (transaction c))).

(** The scheduler's own state at a glance: slot, elapsed time, queue and
    timed-out labels. *)
Definition snapshot (c : SkillContext)
  : option LedgerApiDialogue * float * list FipaDialogue * gset DialogueLabel :=
  (processing (transaction c), processing_time (transaction c),
   waiting (transaction c), timedout (transaction c)).

(** How many times a request occurs in the waiting queue. *)
Definition pending_copies (f : FipaDialogue) (c : SkillContext) : nat :=
  length (filter (λ g, g = f) (waiting (transaction c))).

End Operations.

(** ** A concrete skill for the scenarios *)
Module Scenario.

(** Modelled from the spec: the dialogue label of section 3 (the class
    [DialogueLabel] is not among the sources).  The responder reference is
    the placeholder [None] until the counterparty supplies one. *)
Record Label := {
  starter_reference : nat;
  responder_reference : option nat;
  starter_address : string;
  responder_address : string;
}.

Global Instance Label_eq_dec : EqDecision Label.
Proof. solve_decision. Defined.

Global Instance Label_countable : Countable Label.
Proof.
  refine (inj_countable'
    (λ l, (starter_reference l, responder_reference l,
           starter_address l, responder_address l))
    (λ t, Build_Label t.1.1.1 t.1.1.2 t.1.2 t.2) _).
  by intros [].
Defined.

(** Modelled from the spec: the message of sections 3 and 6 (the message
    classes are not among the sources): performative, dialogue reference,
    message id, target, and the payload with its addressee. *)
Record Msg := {
  to : string;
  performative : string;
  dialogue_reference : nat * option nat;
  message_id : nat;
  target : nat;
  payload : string;
}.

(** Modelled from the spec: the dialogue registry of section 4.3 (the
    class [Dialogues] is not among the sources), with the monotonic counter
    of section 4.1 for starter references. *)
Record Registry := {
  self_address : string;
  next_reference : nat;
  incomplete : list Label;
}.

(** Modelled from the spec: [create] of sections 4.2 and 4.3 (not among the
    sources): message id 1, target 0, a fresh incomplete label, the
    dialogue stored under it. *)
Definition registry_create (r : Registry) (counterparty performative payload : string)
  : Msg * Label * Registry :=
  let label :=
    {| starter_reference := next_reference r;
       responder_reference := None;
       starter_address := self_address r;
       responder_address := counterparty |} in
  ({| to := counterparty;
      performative := performative;
      dialogue_reference := (next_reference r, None);
      message_id := 1;
      target := 0;
      payload := payload |},
   label,
   {| self_address := self_address r;
      next_reference := S (next_reference r);
      incomplete := incomplete r ++ [label] |}).

(** Requests are named by strings, and a request's terms are its name. *)
#[export] Instance protocols : Protocols := {|
  Terms := string;
  Query := string;
  FipaDialogue := string;
  terms := λ f, f;
  DialogueLabel := Label;
  LedgerApiMessage := Msg;
  OefSearchMessage := Msg;
|}.

(** The strategy of the scenarios: the searching flag and a query. *)
Record Strategy := {
  searching : bool;
  service_query : string;
}.

(** Modelled from the spec: two dialogues are the same conversation when
    they carry the same label (section 3); here [==] also compares the
    attached request. *)
#[export] Instance collaborators : Collaborators := {|
  LedgerApiDialogues := Registry;
  OefSearchDialogues := Registry;
  GenericStrategy := Strategy;
  LEDGER_API_ADDRESS := "fetchai/ledger";
  dialogue_eqb := λ p d, bool_decide (p = d);
  ledger_api_create := λ r counterparty request,
    match request with
    | GET_RAW_TRANSACTION t =>
        registry_create r counterparty "get_raw_transaction" t
    end;
  oef_search_create := λ r counterparty request,
    match request with
    | SEARCH_SERVICES q =>
        let '(m, _, r') := registry_create r counterparty "search_services" q in
        (m, r')
    end;
  is_searching := searching;
  update_search_query_params := λ s, s;
  get_location_and_service_query := λ s, (service_query s, s);
|}.

(** A skill whose scheduler has the given tick interval, maximum
    processing time and waiting queue, and nothing in flight. *)
Definition skill (searching : bool) (t max : float) (queue : list string)
  : SkillContext :=
  {| strategy := {| searching := searching; service_query := "query" |};
     ledger_api_dialogues :=
       {| self_address := "buyer"; next_reference := 1; incomplete := [] |};
     oef_search_dialogues :=
       {| self_address := "buyer"; next_reference := 1; incomplete := [] |};
     search_service_address := "fetchai/soef";
     outbox := [];
     logger := [];
     transaction := set_waiting queue (__init__ (Some t) (Some max)) |}.

(** The label of the [n]-th ledger API dialogue the skill creates. *)
Definition label (n : nat) : Label :=
  {| starter_reference := n;
     responder_reference := None;
     starter_address := "buyer";
     responder_address := "fetchai/ledger" |}.

(** The ledger API dialogue created for [request] as the [n]-th one. *)
Definition dialogue (n : nat) (request : string) : LedgerApiDialogue :=
  {| dialogue_label := label n; associated_fipa_dialogue := request |}.

(** Queue [A; B], a tick of one time unit, a maximum of two. *)
Definition two_requests : SkillContext := skill false 1 2 ["A"; "B"].

(** One request, which times out and is retried at once. *)
Definition one_request : SkillContext := skill false 1 2 ["A"].

(** One request under the default tick interval and maximum processing
    time of [__init__]. *)
Definition default_request : SkillContext :=
  set_transaction (set_waiting ["A"] (__init__ None None)) one_request.

(** A skill whose scheduler is freshly initialised, with the defaults. *)
Definition idle_skill : SkillContext :=
  set_transaction (__init__ None None) one_request.

(** One request under a tick interval of zero. *)
Definition frozen_clock : SkillContext := skill false 0 2 ["A"].

(** A searching skill with no transaction waiting. *)
Definition searching_skill : SkillContext := skill true 1 2 [].

End Scenario.

(** ** Compositions of scheduler operations *)
Section Compositions.
Context `{!Protocols, !Collaborators}.

(** The requests the scheduler holds: the one in the slot, then the
    waiting queue. *)
Definition requests (c : SkillContext) : list FipaDialogue :=
  option_list (associated_fipa_dialogue <$> processing (transaction c))
  ++ waiting (transaction c).

(** A tick followed by the reply for the dialogue the tick left in the
    slot, if any. *)
Definition serve (c : SkillContext) : SkillContext :=
  let c1 := step c Tick in
  match processing (transaction c1) with
  | Some d => step c1 (Reply d)
  | None => c1
  end.

(** A failure reply for the dialogue in the slot, if any, followed by a
    tick. *)
Definition fail_and_retry (c : SkillContext) : SkillContext :=
  match processing (transaction c) with
  | Some d => step (step c (Failure d)) Tick
  | None => c
  end.

(** The messages the ledger API registry creates when the requests of a
    queue are submitted one after the other, and the registry it ends in. *)
Fixpoint submissions (q : list FipaDialogue) (registry : LedgerApiDialogues)
  : list LedgerApiMessage * LedgerApiDialogues :=
  match q with
  | [] => ([], registry)
  | f :: rest =>
      let created :=
        ledger_api_create registry LEDGER_API_ADDRESS
          (GET_RAW_TRANSACTION (terms f)) in
      let later := submissions rest created.2 in
      (created.1.1 :: later.1, later.2)
  end.

(** Whether an operation is a tick of the behaviour. *)
Definition is_tick (op : Op) : bool :=
  match op with
  | Tick => true
  | _ => false
  end.

(** The part of the context the scheduler has no business with: its own
    configuration, and what belongs to the search behaviour. *)
Definition frame_of (c : SkillContext) :=
  (tick_interval (transaction c), max_processing (transaction c), strategy c,
   oef_search_dialogues c, search_service_address c).

End Compositions.

(** ** The object counts of the profiling helper ([aea/helpers/profiling.py]) *)
Module Profiling.

(** An exception of the profiling helpers. *)
Inductive exn := KeyError.

(** What [get_dialogues_by_type] asks of an object the collector returns:
    [id(obj)], [isinstance(obj, Dialogue)],
    [isinstance(obj, BasicDialoguesStorage)], [type(obj).__name__] and the
    number of values of [obj._incomplete_to_complete_dialogue_labels]. *)
Record HeapObject := {
  id : Z;
  is_Dialogue : bool;
  is_BasicDialoguesStorage : bool;
  type_name : string;
  incomplete_to_complete_dialogue_labels : nat;
}.

Definition LABELS_KEY : string := "incomplete_to_complete_dialogue_labels".

(** The three locals of [get_dialogues_by_type]. *)
Record Tally := {
  seen_dialogue_ids : list Z;
  seen_dialogue_storage_ids : list Z;
  dialogues_by_type : gmap string nat;
}.

(** One iteration of the loop over [gc.get_objects()], lines 236-260;
    [d[k] += n] raises [KeyError] when [k] is missing. *)
Definition visit (t : Tally) (obj : HeapObject) : exn + Tally :=
  if is_Dialogue obj && bool_decide (id obj ∉ seen_dialogue_ids t) then
    let dialogue_type := type_name obj in
    inr {| seen_dialogue_ids := seen_dialogue_ids t ++ [id obj];
           seen_dialogue_storage_ids := seen_dialogue_storage_ids t;
           dialogues_by_type :=
             match dialogues_by_type t !! dialogue_type with
             | None => <[dialogue_type := 1]> (dialogues_by_type t)
             | Some n => <[dialogue_type := n + 1]> (dialogues_by_type t)
             end |}
  else if is_BasicDialoguesStorage obj
          && bool_decide (id obj ∉ seen_dialogue_storage_ids t) then
    match dialogues_by_type t !! LABELS_KEY with
    | None => inl KeyError
    | Some n =>
        inr {| seen_dialogue_ids := seen_dialogue_ids t;
               seen_dialogue_storage_ids := seen_dialogue_storage_ids t ++ [id obj];
               dialogues_by_type :=
                 <[LABELS_KEY := n + incomplete_to_complete_dialogue_labels obj]>
                   (dialogues_by_type t) |}
    end
  else inr t.

Fixpoint visit_all (t : Tally) (objs : list HeapObject) : exn + Tally :=
  match objs with
  | [] => inr t
  | obj :: rest =>
      match visit t obj with
      | inl e => inl e
      | inr t' => visit_all t' rest
      end
  end.

(** [get_dialogues_by_type], lines 227-263, run on the objects the
    collector returns.  The lock held around the loop is not modelled: a
    call is one sequential pass over the list. *)
Definition get_dialogues_by_type (gc_objects : list HeapObject)
  : exn + gmap string nat :=
  match visit_all {| seen_dialogue_ids := [];
                     seen_dialogue_storage_ids := [];
                     dialogues_by_type := {[LABELS_KEY := 0]} |} gc_objects with
  | inl e => inl e
  | inr t => inr (dialogues_by_type t)
  end.

(** The number of dialogues of a type among the objects, and the number of
    labels held by the storages among them. *)
Definition dialogues_named (name : string) (objs : list HeapObject) : nat :=
  length (filter (λ o, is_Dialogue o = true ∧ type_name o = name) objs).

Definition storage_labels (objs : list HeapObject) : nat :=
  sum_list (incomplete_to_complete_dialogue_labels <$>
            filter (λ o, is_Dialogue o = false ∧ is_BasicDialoguesStorage o = true) objs).

(** A tally read after [k] has been added to it: adding 0 leaves a missing
    key missing. *)
Definition bump (o : option nat) (k : nat) : option nat :=
  if decide (k = 0) then o else Some (default 0 o + k).

(** What the objects add to the entry of a name: a dialogue of that type
    counts for 1, and a storage adds its labels to the labels entry. *)
Definition gain (name : string) (objs : list HeapObject) : nat :=
  dialogues_named name objs +
  (if decide (name = LABELS_KEY) then storage_labels objs else 0).

(** A small heap: three dialogues of two types, a storage holding three
    labels, and an object of no interest. *)
Definition small_heap : list HeapObject :=
  [ {| id := 11; is_Dialogue := true; is_BasicDialoguesStorage := false;
       type_name := "FipaDialogue"; incomplete_to_complete_dialogue_labels := 0 |};
    {| id := 12; is_Dialogue := true; is_BasicDialoguesStorage := false;
       type_name := "LedgerApiDialogue";
       incomplete_to_complete_dialogue_labels := 0 |};
    {| id := 13; is_Dialogue := false; is_BasicDialoguesStorage := true;
       type_name := "BasicDialoguesStorage";
       incomplete_to_complete_dialogue_labels := 3 |};
    {| id := 14; is_Dialogue := true; is_BasicDialoguesStorage := false;
       type_name := "FipaDialogue"; incomplete_to_complete_dialogue_labels := 0 |};
    {| id := 15; is_Dialogue := false; is_BasicDialoguesStorage := false;
       type_name := "dict"; incomplete_to_complete_dialogue_labels := 0 |} ].

Section Instances.
Context {Obj Ty : Type}.
Variable isinstance : Obj → Ty → bool.
Variable __name__ : Ty → string.

(** [result[name] += n] on a [Counter]: a missing key counts as 0. *)
Definition counter_add (name : string) (n : nat) (result : gmap string nat)
  : gmap string nat :=
  <[name := default 0 (result !! name) + n]> result.

(** [Profiling.get_objects_instances], lines 205-220, for the listed
    types and the objects the collector returns; [isinstance] and
    [__name__] are Python's. *)
Definition get_objects_instances (objects_instances_to_count : list Ty)
  (gc_objects : list Obj) : gmap string nat :=
  let result :=
    foldl (λ result obj_type, counter_add (__name__ obj_type) 0 result)
      ∅ objects_instances_to_count in
  foldl (λ result obj,
           foldl (λ result obj_type,
                    if isinstance obj obj_type
                    then counter_add (__name__ obj_type) 1 result
                    else result)
             result objects_instances_to_count)
    result gc_objects.

(** The number of pairs of an object and a listed type of the given name
    the object is an instance of. *)
Definition instances_named (name : string) (types : list Ty) (objs : list Obj) : nat :=
  sum_list ((λ obj, length (filter (λ T, __name__ T = name ∧ isinstance obj T = true) types))
            <$> objs).

End Instances.
End Profiling.

(** ** The relative targets of the symbolic links ([scripts/update_symlinks_cross_platform.py]) *)
Module Symlinks.

Inductive exn := ValueError.

(** A [pathlib] path: whether it is anchored at the root of the file
    system, and its components. *)
Record Path := {
  is_absolute : bool;
  parts : list string;
}.

Global Instance Path_eq_dec : EqDecision Path.
Proof. solve_decision. Defined.

(** [Path(".")] and [Path("../")] *)
Definition here : Path := {| is_absolute := false; parts := [] |}.
Definition up : Path := {| is_absolute := false; parts := [".."] |}.

(** [p.parent]: the path without its last component; a path without
    components is its own parent. *)
Definition parent (p : Path) : Path :=
  {| is_absolute := is_absolute p; parts := removelast (parts p) |}.

(** [p.name]: the last component, or the empty string. *)
Definition name (p : Path) : string := default "" (last (parts p)).

(** [p / q] *)
Definition joinpath (p q : Path) : Path :=
  if is_absolute q then q
  else {| is_absolute := is_absolute p; parts := parts p ++ parts q |}.

(** [p.relative_to(other)]: raises [ValueError] unless [p] is [other] or
    below it. *)
Definition relative_to (p other : Path) : exn + Path :=
  if bool_decide (is_absolute p = is_absolute other
                  ∧ take (length (parts other)) (parts p) = parts other)
  then inr {| is_absolute := false;
              parts := drop (length (parts other)) (parts p) |}
  else inl ValueError.

(** [len(p.parents)] *)
Definition nb_parents_of (p : Path) : nat := length (parts p).

(** [p.absolute()], in the current directory [getcwd]. *)
Definition absolute (getcwd p : Path) : Path :=
  if is_absolute p then p else joinpath getcwd p.

(** [" ".join] and ["/".join] *)
Fixpoint join (sep : string) (l : list string) : string :=
  match l with
  | [] => ""
  | [x] => x
  | x :: rest => x +:+ sep +:+ join sep rest
  end.

(** [str(p)] *)
Definition str (p : Path) : string :=
  if is_absolute p then "/" +:+ join "/" (parts p)
  else match parts p with
       | [] => "."
       | _ => join "/" (parts p)
       end.

(** The local [target] of [do_symlink], lines 92-101: the target as a
    path relative to the directory of the link. *)
Definition relative_target (ROOT_PATH link_path target_path : Path) : exn + Path :=
  let working_directory := parent link_path in
  match relative_to target_path ROOT_PATH with
  | inl e => inl e
  | inr target_relative_to_root =>
      match relative_to working_directory ROOT_PATH with
      | inl e => inl e
      | inr cwd_relative_to_root =>
          let nb_parents := nb_parents_of cwd_relative_to_root in
          let root_relative_to_cwd := foldl joinpath here (replicate nb_parents up) in
          inr (joinpath root_relative_to_cwd target_relative_to_root)
      end
  end.

(** What [do_symlink] prints and runs: the line printed, the arguments of
    [subprocess.call] and its working directory. *)
Record Call := {
  printed : string;
  args : list string;
  cwd : string;
}.

(** [do_symlink], lines 63-109. *)
Definition do_symlink (getcwd ROOT_PATH link_path target_path : Path) : exn + Call :=
  let working_directory := parent link_path in
  match relative_target ROOT_PATH link_path target_path with
  | inl e => inl e
  | inr target =>
      let link_name := name link_path in
      let script :=
        joinpath (joinpath ROOT_PATH {| is_absolute := false; parts := ["scripts"] |})
          {| is_absolute := false; parts := ["create_symlink_crossplatform.sh"] |} in
      let args := ["bash"; str script; link_name; str target] in
      inr {| printed := "Calling '" +:+ join " " args +:+ "'";
             args := args;
             cwd := str (absolute getcwd working_directory) |}
  end.

(** [p / "component"] *)
Definition sub (p : Path) (component : string) : Path :=
  joinpath p {| is_absolute := false; parts := [component] |}.


(** Where a relative path leads from a directory, component by component:
    [..] leaves the last directory entered, any other component enters it. *)
Definition follow (components : list string) (directory : list string) : list string :=
  foldl (λ dir x, if decide (x = "..") then removelast dir else dir ++ [x])
    directory components.

(** A checkout of the repository at [/home/dev/open-aea]. *)
Definition checkout : Path :=
  {| is_absolute := true; parts := ["home"; "dev"; "open-aea"] |}.

End Symlinks.

(** * Properties of the scheduler and of the search behaviour *)
Section SchedulerProperties.
Context `{!Protocols, !Collaborators}.
Import TransactionBehaviour.

Implicit Types (c : SkillContext) (b : GenericTransactionBehaviour)
  (d p : LedgerApiDialogue) (f : FipaDialogue).

Ltac unfold_methods :=
  unfold act, act_idle, _start_processing, _timeout_processing,
    finish_processing, failed_processing, waiting_pop0, timedout_remove,
    create, log, put_message, modify_self, self, modify, get, bind, ret, raise.

Lemma timeout_processing_occupied c p :
  processing (transaction c) = Some p →
  _timeout_processing c =
    (Returned tt,
     set_transaction
       (set_processing None
          (set_processing_time 0%float
             (set_waiting (waiting (transaction c) ++ [associated_fipa_dialogue p])
                (set_timedout ({[dialogue_label p]} ∪ timedout (transaction c))
                   (transaction c))))) c).
Proof. intros Hp. unfold_methods. rewrite Hp. reflexivity. Qed.

Lemma timeout_processing_free c :
  processing (transaction c) = None → _timeout_processing c = (Returned tt, c).
Proof. intros Hp. unfold_methods. rewrite Hp. reflexivity. Qed.

Lemma start_processing_cons c f rest :
  waiting (transaction c) = f :: rest →
  _start_processing c =
    let created :=
      ledger_api_create (ledger_api_dialogues c) LEDGER_API_ADDRESS
        (GET_RAW_TRANSACTION (terms f)) in
    (Returned tt,
     {| strategy := strategy c;
        ledger_api_dialogues := created.2;
        oef_search_dialogues := oef_search_dialogues c;
        search_service_address := search_service_address c;
        outbox := outbox c ++ [LedgerApiMsg created.1.1];
        logger := logger c ++ [InfoProcessingTransaction (length rest);
                               InfoRequestingTransfer created.1.1];
        transaction :=
          {| tick_interval := tick_interval (transaction c);
             max_processing := max_processing (transaction c);
             processing_time := 0%float;
             waiting := rest;
             processing := Some {| dialogue_label := created.1.2;
                                   associated_fipa_dialogue := f |};
             timedout := timedout (transaction c) |} |}).
Proof.
  intros Hw. unfold_methods. rewrite Hw. cbn.
  destruct (ledger_api_create _ _ _) as [[msg lbl] registry]. cbn.
  rewrite <- app_assoc. reflexivity.
Qed.

Lemma start_processing_nil c :
  waiting (transaction c) = [] → _start_processing c = (Raised IndexError, c).
Proof. intros Hw. unfold_methods. rewrite Hw. reflexivity. Qed.


Lemma act_idle_nil c :
  waiting (transaction c) = [] → act_idle c = (Returned tt, c).
Proof. intros Hw. unfold act_idle, bind, self, ret. rewrite Hw. reflexivity. Qed.

Lemma act_idle_cons c f rest :
  waiting (transaction c) = f :: rest → act_idle c = _start_processing c.
Proof. intros Hw. unfold act_idle, bind, self. rewrite Hw. reflexivity. Qed.

Lemma act_free c :
  processing (transaction c) = None → act c = act_idle c.
Proof. intros Hp. unfold act, bind, self. rewrite Hp. reflexivity. Qed.

Lemma act_in_time c p :
  processing (transaction c) = Some p →
  (processing_time (transaction c) <=? max_processing (transaction c))%float = true →
  act c =
    (Returned tt,
     set_transaction
       (set_processing_time
          (processing_time (transaction c) + tick_interval (transaction c))%float
          (transaction c)) c).
Proof. intros Hp Hle. unfold act, bind, self, modify_self, modify. rewrite Hp, Hle. reflexivity. Qed.

Lemma act_expired c p :
  processing (transaction c) = Some p →
  (processing_time (transaction c) <=? max_processing (transaction c))%float = false →
  act c = act_idle (_timeout_processing c).2.
Proof.
  intros Hp Hle. unfold act. unfold bind at 1. unfold self at 1.
  rewrite Hp, Hle. unfold bind at 1.
  rewrite (timeout_processing_occupied c p Hp). reflexivity.
Qed.

Lemma pending_copies_snoc c c' f :
  waiting (transaction c') = waiting (transaction c) ++ [f] →
  pending_copies f c' = S (pending_copies f c).
Proof.
  intros Hw. unfold pending_copies. rewrite Hw, filter_app, length_app.
  rewrite filter_cons_True by done. cbn. lia.
Qed.

Lemma pending_copies_pos c f :
  f ∈ waiting (transaction c) → 0 < pending_copies f c.
Proof.
  intros Hin. unfold pending_copies.
  assert (f ∈ filter (λ g, g = f) (waiting (transaction c))) as Hf
    by (apply list_elem_of_filter; done).
  destruct (filter _ _); [by apply elem_of_nil in Hf | cbn; lia].
Qed.

(** C5. A tick taken while the slot is occupied and the elapsed time is
    still within [max_processing] (the test [processing_time <=
    max_processing] of line 141 holds) returns, adds one [tick_interval] to
    [processing_time] and changes nothing else: the waiting queue, the
    request in the slot, the timed-out labels, the outbox, the log, the
    registries and the strategy are the same. *)
Theorem act_while_processing_only_advances_the_clock c p :
  processing (transaction c) = Some p →
  (processing_time (transaction c) <=? max_processing (transaction c))%float = true →
  ∃ c',
    act c = (Returned tt, c') ∧
    processing_time (transaction c') =
      (processing_time (transaction c) + tick_interval (transaction c))%float ∧
    waiting (transaction c') = waiting (transaction c) ∧
    processing (transaction c') = Some p ∧
    timedout (transaction c') = timedout (transaction c) ∧
    tick_interval (transaction c') = tick_interval (transaction c) ∧
    max_processing (transaction c') = max_processing (transaction c) ∧
    outbox c' = outbox c ∧
    logger c' = logger c ∧
    ledger_api_dialogues c' = ledger_api_dialogues c ∧
    oef_search_dialogues c' = oef_search_dialogues c ∧
    strategy c' = strategy c.
Proof.
  intros Hp Hle. eexists. split; [by apply (act_in_time c p)|].
  cbn. by rewrite Hp.
Qed.

(** C6. A tick taken with an empty slot and a non-empty waiting queue
    removes exactly the head of the queue, submits the message the ledger
    API registry creates for its terms, puts the new dialogue, with the
    request attached, in the slot, and resets the elapsed time to 0. *)
Theorem act_idle_dequeues_the_head c f rest :
  processing (transaction c) = None →
  waiting (transaction c) = f :: rest →
  ∃ c' msg lbl registry,
    ledger_api_create (ledger_api_dialogues c) LEDGER_API_ADDRESS
      (GET_RAW_TRANSACTION (terms f)) = (msg, lbl, registry) ∧
    act c = (Returned tt, c') ∧
    waiting (transaction c') = rest ∧
    outbox c' = outbox c ++ [LedgerApiMsg msg] ∧
    ledger_api_dialogues c' = registry ∧
    processing (transaction c') =
      Some {| dialogue_label := lbl; associated_fipa_dialogue := f |} ∧
    processing_time (transaction c') = 0%float ∧
    timedout (transaction c') = timedout (transaction c).
Proof.
  intros Hp Hw.
  rewrite (act_free c Hp), (act_idle_cons c f rest Hw),
    (start_processing_cons c f rest Hw).
  destruct (ledger_api_create _ _ _) as [[msg lbl] registry].
  eexists _, msg, lbl, registry. cbn. done.
Qed.

(** C2. A tick that finds a request in the slot whose elapsed time exceeds
    [max_processing] (the test of line 141 fails) times it out: the label of
    the in-flight dialogue is added to [timedout], the request is appended
    to the tail of the waiting queue, once, and the slot is emptied
    ([c_free]); the freed slot is then taken, in the same call of [act], by
    the next waiting item, so that the new request in the slot followed by
    the queue is the old queue followed by the timed-out request. *)
Theorem act_times_out_the_expired_request c p :
  processing (transaction c) = Some p →
  (processing_time (transaction c) <=? max_processing (transaction c))%float = false →
  ∃ c_free c' p',
    _timeout_processing c = (Returned tt, c_free) ∧
    timedout (transaction c_free) = {[dialogue_label p]} ∪ timedout (transaction c) ∧
    waiting (transaction c_free) =
      waiting (transaction c) ++ [associated_fipa_dialogue p] ∧
    pending_copies (associated_fipa_dialogue p) c_free =
      S (pending_copies (associated_fipa_dialogue p) c) ∧
    processing (transaction c_free) = None ∧
    processing_time (transaction c_free) = 0%float ∧
    outbox c_free = outbox c ∧
    act c = act_idle c_free ∧
    act c = (Returned tt, c') ∧
    processing (transaction c') = Some p' ∧
    associated_fipa_dialogue p' :: waiting (transaction c') =
      waiting (transaction c) ++ [associated_fipa_dialogue p] ∧
    timedout (transaction c') = {[dialogue_label p]} ∪ timedout (transaction c).
Proof.
  intros Hp Hle.
  pose proof (timeout_processing_occupied c p Hp) as Ht.
  pose proof (act_expired c p Hp Hle) as Hact. rewrite Ht in Hact. cbn [snd] in Hact.
  set (c1 := set_transaction _ c) in *.
  assert (waiting (transaction c1) =
          waiting (transaction c) ++ [associated_fipa_dialogue p]) as Hw1 by done.
  assert (∃ f rest,
    waiting (transaction c) ++ [associated_fipa_dialogue p] = f :: rest)
    as (f & rest & Hq) by (destruct (waiting (transaction c)); cbn; eauto).
  assert (waiting (transaction c1) = f :: rest) as Hw1' by congruence.
  pose proof (start_processing_cons c1 f rest Hw1') as Hstart. cbv zeta in Hstart.
  rewrite <- (act_idle_cons c1 f rest Hw1'), <- Hact in Hstart.
  eexists c1, _, _. split_and!; try done.
  by apply pending_copies_snoc.
Qed.


Lemma finish_processing_match c d :
  processing_eq (processing (transaction c)) d = true →
  finish_processing d c =
    (Returned tt,
     set_transaction
       (set_processing None (set_processing_time 0%float (transaction c))) c).
Proof. intros He. unfold_methods. rewrite He. reflexivity. Qed.

Lemma finish_processing_late c d :
  processing_eq (processing (transaction c)) d = false →
  dialogue_label d ∈ timedout (transaction c) →
  finish_processing d c =
    (Returned tt,
     set_logger (logger c ++ [DebugTimeoutDialogue d])
       (set_transaction
          (set_timedout (timedout (transaction c) ∖ {[dialogue_label d]})
             (transaction c)) c)).
Proof.
  intros He Hin. unfold_methods. rewrite He.
  destruct (decide (dialogue_label d ∉ _)) as [Hn|_]; [done|].
  cbn. destruct (decide (dialogue_label d ∈ _)); done.
Qed.

Lemma finish_processing_mismatch c d :
  processing_eq (processing (transaction c)) d = false →
  dialogue_label d ∉ timedout (transaction c) →
  finish_processing d c = (Raised ValueError, c).
Proof.
  intros He Hin. unfold_methods. rewrite He.
  destruct (decide (dialogue_label d ∉ _)); done.
Qed.

Lemma failed_processing_unfold c d :
  failed_processing d c =
    match finish_processing d c with
    | (Returned _, c') =>
        (Returned tt,
         set_transaction
           (set_waiting (waiting (transaction c') ++ [associated_fipa_dialogue d])
              (transaction c')) c')
    | (Raised e, c') => (Raised e, c')
    end.
Proof. reflexivity. Qed.

(** C1. The three cases of [finish_processing]: a reply for the dialogue
    in the slot clears the slot, resets the elapsed time to 0 and enqueues
    nothing; otherwise a reply whose label is in [timedout] has its label
    removed from the set and is discarded, the slot, the elapsed time and
    the queue staying as they are; otherwise [ValueError] is raised with
    the context untouched, and it propagates through [failed_processing]. *)
Theorem finish_processing_three_cases c d :
  let b := transaction c in
  let r := finish_processing d c in
  (processing_eq (processing b) d = true →
     r.1 = Returned tt ∧
     processing (transaction r.2) = None ∧
     processing_time (transaction r.2) = 0%float ∧
     waiting (transaction r.2) = waiting b ∧
     timedout (transaction r.2) = timedout b ∧
     outbox r.2 = outbox c) ∧
  (processing_eq (processing b) d = false →
   dialogue_label d ∈ timedout b →
     r.1 = Returned tt ∧
     timedout (transaction r.2) = timedout b ∖ {[dialogue_label d]} ∧
     (dialogue_label d ∉ timedout (transaction r.2)) ∧
     processing (transaction r.2) = processing b ∧
     processing_time (transaction r.2) = processing_time b ∧
     waiting (transaction r.2) = waiting b ∧
     outbox r.2 = outbox c) ∧
  (processing_eq (processing b) d = false →
   dialogue_label d ∉ timedout b →
     r = (Raised ValueError, c) ∧
     failed_processing d c = (Raised ValueError, c)).
Proof.
  cbv zeta. split_and!.
  - intros He. by rewrite (finish_processing_match c d He).
  - intros He Hin. rewrite (finish_processing_late c d He Hin). cbn.
    split_and!; try done.
    rewrite elem_of_difference, elem_of_singleton. tauto.
  - intros He Hin. rewrite failed_processing_unfold.
    by rewrite (finish_processing_mismatch c d He Hin).
Qed.

(** C7. A late reply for a timed-out label that arrives while another
    dialogue occupies the slot is discarded: its label leaves [timedout],
    and the slot, the elapsed time, the waiting queue and the outbox are
    unchanged. *)
Theorem late_reply_leaves_the_retry_in_flight c d p :
  processing (transaction c) = Some p →
  dialogue_eqb p d = false →
  dialogue_label d ∈ timedout (transaction c) →
  ∃ c',
    finish_processing d c = (Returned tt, c') ∧
    timedout (transaction c') = timedout (transaction c) ∖ {[dialogue_label d]} ∧
    processing (transaction c') = Some p ∧
    processing_time (transaction c') = processing_time (transaction c) ∧
    waiting (transaction c') = waiting (transaction c) ∧
    outbox c' = outbox c.
Proof.
  intros Hp He Hin.
  assert (processing_eq (processing (transaction c)) d = false) as He'
    by (by rewrite Hp).
  eexists. split; [by apply finish_processing_late|]. cbn. by rewrite Hp.
Qed.

Lemma failed_processing_accepted c d :
  processing_eq (processing (transaction c)) d = true ∨
    dialogue_label d ∈ timedout (transaction c) →
  ∃ c',
    failed_processing d c = (Returned tt, c') ∧
    waiting (transaction c') =
      waiting (transaction c) ++ [associated_fipa_dialogue d] ∧
    processing (transaction c') =
      (if processing_eq (processing (transaction c)) d
       then None else processing (transaction c)).
Proof.
  intros Hacc. rewrite failed_processing_unfold.
  destruct (processing_eq (processing (transaction c)) d) eqn:He.
  - rewrite (finish_processing_match c d He). eexists. by split_and!.
  - destruct Hacc as [|Hin]; [done|].
    rewrite (finish_processing_late c d He Hin). eexists. by split_and!.
Qed.

(** C4, amended. A failure reply that is accepted (its dialogue is the one
    in the slot, or its label is in [timedout]) clears the slot exactly when
    its dialogue was the one in the slot, and appends the failed request to
    the tail of the waiting queue, whatever the number of earlier attempts;
    a failure reply that matches neither raises [ValueError] and leaves the
    context, hence the queue, as it was. *)
Theorem failed_processing_requeues_an_accepted_reply c d :
  let b := transaction c in
  (processing_eq (processing b) d = true ∨ dialogue_label d ∈ timedout b →
   ∃ c',
     failed_processing d c = (Returned tt, c') ∧
     waiting (transaction c') = waiting b ++ [associated_fipa_dialogue d] ∧
     (processing_eq (processing b) d = true → processing (transaction c') = None) ∧
     (processing_eq (processing b) d = false →
      processing (transaction c') = processing b)) ∧
  (processing_eq (processing b) d = false → dialogue_label d ∉ timedout b →
   failed_processing d c = (Raised ValueError, c)).
Proof.
  cbv zeta. split.
  - intros Hacc.
    destruct (failed_processing_accepted c d Hacc) as (c' & Hrun & Hw & Hp).
    exists c'. split_and!; try done; intros He; by rewrite He in Hp.
  - intros He Hin. rewrite failed_processing_unfold.
    by rewrite (finish_processing_mismatch c d He Hin).
Qed.

(** C9, amended. A failure reply for a dialogue whose label is in
    [timedout] appends its request to the tail of the waiting queue once
    more, so the number of copies of the request pending in the queue grows
    by one; two copies are pending when the copy appended by the timeout is
    still waiting. *)
Theorem failure_after_timeout_requeues_once_more c d :
  dialogue_label d ∈ timedout (transaction c) →
  ∃ c',
    failed_processing d c = (Returned tt, c') ∧
    waiting (transaction c') =
      waiting (transaction c) ++ [associated_fipa_dialogue d] ∧
    pending_copies (associated_fipa_dialogue d) c' =
      S (pending_copies (associated_fipa_dialogue d) c) ∧
    (associated_fipa_dialogue d ∈ waiting (transaction c) →
     2 ≤ pending_copies (associated_fipa_dialogue d) c').
Proof.
  intros Hin.
  destruct (failed_processing_accepted c d (or_intror Hin)) as (c' & Hrun & Hw & _).
  exists c'. split_and!; try done.
  - by apply pending_copies_snoc.
  - intros Hq. rewrite (pending_copies_snoc c c' _ Hw).
    pose proof (pending_copies_pos c _ Hq). lia.
Qed.


Lemma in_flight_le_1 c : in_flight c ≤ 1.
Proof. unfold in_flight. destruct (processing (transaction c)); cbn; lia. Qed.

Lemma finish_processing_outbox c d : outbox (finish_processing d c).2 = outbox c.
Proof.
  destruct (processing_eq (processing (transaction c)) d) eqn:He.
  - by rewrite (finish_processing_match c d He).
  - destruct (decide (dialogue_label d ∈ timedout (transaction c))) as [Hin|Hin].
    + by rewrite (finish_processing_late c d He Hin).
    + by rewrite (finish_processing_mismatch c d He Hin).
Qed.

Lemma failed_processing_outbox c d : outbox (failed_processing d c).2 = outbox c.
Proof.
  rewrite failed_processing_unfold.
  pose proof (finish_processing_outbox c d) as Ho.
  by destruct (finish_processing d c) as [[[]|e] c1].
Qed.

(** A tick that finds the slot free either does nothing or starts the head
    of the queue. *)
Lemma act_idle_submits c :
  processing (transaction c) = None →
  (act_idle c).2 = c ∨
  ∃ msg,
    _start_processing c = (Returned tt, (act_idle c).2) ∧
    outbox (act_idle c).2 = outbox c ++ [LedgerApiMsg msg] ∧
    in_flight (act_idle c).2 = 1.
Proof.
  intros Hp. destruct (waiting (transaction c)) as [|f rest] eqn:Hw.
  - left. by rewrite (act_idle_nil c Hw).
  - right. rewrite (act_idle_cons c f rest Hw), (start_processing_cons c f rest Hw).
    cbv zeta. eexists. by split_and!.
Qed.

(** C8. In every context reached by a sequence of operations the slot
    holds at most one request, and an operation run from there either
    leaves the outbox alone or is a tick that submits exactly one message
    through [_start_processing], run from a context whose slot is empty:
    the context itself, or the one [_timeout_processing] has just freed. *)
Theorem at_most_one_request_in_flight (c0 : SkillContext) (ops : list Op) (op : Op) :
  let c := run ops c0 in
  let c' := step c op in
  in_flight c ≤ 1 ∧
  (outbox c' = outbox c ∨
   ∃ c_free msg,
     op = Tick ∧
     (c_free = c ∨ _timeout_processing c = (Returned tt, c_free)) ∧
     processing (transaction c_free) = None ∧
     in_flight c_free = 0 ∧
     outbox c_free = outbox c ∧
     _start_processing c_free = (Returned tt, c') ∧
     outbox c' = outbox c ++ [LedgerApiMsg msg] ∧
     in_flight c' = 1).
Proof.
  cbv zeta. generalize (run ops c0). intros c. split; [apply in_flight_le_1|].
  destruct op as [|d|d|f]; unfold step; cbn [exec].
  - destruct (processing (transaction c)) as [p|] eqn:Hp.
    + destruct (processing_time (transaction c) <=? max_processing (transaction c))%float
        eqn:Hle.
      * left. by rewrite (act_in_time c p Hp Hle).
      * rewrite (act_expired c p Hp Hle).
        pose proof (timeout_processing_occupied c p Hp) as Ht.
        rewrite Ht. cbn [snd]. set (c1 := set_transaction _ c) in *.
        destruct (act_idle_submits c1 eq_refl) as [Hsame|(msg & Hs & Ho & Hn)].
        -- left. by rewrite Hsame.
        -- right. exists c1, msg. split_and!; try done. by right.
    + rewrite (act_free c Hp).
      destruct (act_idle_submits c Hp) as [Hsame|(msg & Hs & Ho & Hn)].
      * left. by rewrite Hsame.
      * right. exists c, msg. split_and!; try done; [by left|].
        unfold in_flight. by rewrite Hp.
  - left. apply finish_processing_outbox.
  - left. apply failed_processing_outbox.
  - by left.
Qed.

Lemma search_act_skip c :
  is_searching (strategy c) = false ∨ waiting (transaction c) ≠ [] →
  SearchBehaviour.act c =
    (Returned tt,
     if is_searching (strategy c)
     then set_logger
            (logger c ++ [InfoSkippingSearch (length (waiting (transaction c)))]) c
     else c).
Proof.
  intros Hskip. unfold SearchBehaviour.act, bind, get, ret, log, modify.
  destruct (is_searching (strategy c)) eqn:Hs; cbn [negb]; [|done].
  destruct Hskip as [|Hw]; [done|].
  destruct (decide (0 < length (waiting (transaction c)))) as [_|Hn]; [done|].
  destruct (waiting (transaction c)); [done|cbn in Hn; lia].
Qed.


(** C10. When the strategy is not searching, or the transaction
    behaviour's waiting queue is not empty, the search behaviour's [act]
    returns without creating a search dialogue and without putting a message
    in the outbox; the registries, the strategy and the transaction
    behaviour are unchanged. *)
Theorem search_act_skips_while_transactions_wait c :
  is_searching (strategy c) = false ∨ waiting (transaction c) ≠ [] →
  ∃ c',
    SearchBehaviour.act c = (Returned tt, c') ∧
    outbox c' = outbox c ∧
    oef_search_dialogues c' = oef_search_dialogues c ∧
    ledger_api_dialogues c' = ledger_api_dialogues c ∧
    strategy c' = strategy c ∧
    transaction c' = transaction c.
Proof.
  intros Hskip. rewrite (search_act_skip c Hskip).
  eexists. split; [done|]. by destruct (is_searching (strategy c)).
Qed.

Lemma search_act_sends_only_with_no_transactions_waiting c :
  outbox (SearchBehaviour.act c).2 ≠ outbox c →
  is_searching (strategy c) = true ∧ waiting (transaction c) = [].
Proof.
  intros Hne.
  destruct (is_searching (strategy c)) eqn:Hs;
    destruct (waiting (transaction c)) eqn:Hw; try done; exfalso; apply Hne.
  all: rewrite search_act_skip by (rewrite ?Hs, ?Hw; auto).
  all: by rewrite ?Hs.
Qed.

(** What a tick does to the context, case by case. *)
Lemma step_tick_start c f rest :
  processing (transaction c) = None →
  waiting (transaction c) = f :: rest →
  step c Tick = (_start_processing c).2.
Proof.
  intros Hp Hw. unfold step. cbn [exec].
  by rewrite (act_free c Hp), (act_idle_cons c f rest Hw).
Qed.

Lemma step_tick_wait c p :
  processing (transaction c) = Some p →
  (processing_time (transaction c) <=? max_processing (transaction c))%float = true →
  step c Tick =
    set_transaction
      (set_processing_time
         (processing_time (transaction c) + tick_interval (transaction c))%float
         (transaction c)) c.
Proof. intros Hp Hle. unfold step. cbn [exec]. by rewrite (act_in_time c p Hp Hle). Qed.

Lemma step_tick_timeout c p f rest :
  processing (transaction c) = Some p →
  (processing_time (transaction c) <=? max_processing (transaction c))%float = false →
  waiting (transaction c) ++ [associated_fipa_dialogue p] = f :: rest →
  step c Tick = (_start_processing (_timeout_processing c).2).2.
Proof.
  intros Hp Hle Hq. unfold step. cbn [exec].
  rewrite (act_expired c p Hp Hle).
  rewrite (act_idle_cons _ f rest); [done|].
  by rewrite (timeout_processing_occupied c p Hp).
Qed.

Lemma ticks_S n c : ticks (S n) c = step (ticks n c) Tick.
Proof.
  unfold ticks, run. replace (S n) with (n + 1) by lia.
  by rewrite replicate_add, foldl_app.
Qed.

(** C3, amended. From queue [A; B], an empty slot, a tick interval of 1 and
    a maximum processing time of 2: tick 1 dequeues A into the slot; after
    ticks 2, 3 and 4 A is still in the slot with elapsed time 1, 2 and 3
    (the elapsed time is compared with the maximum before it is advanced,
    and 2 does not exceed 2); at tick 5 the elapsed time 3 exceeds the
    maximum, A times out and is appended to the tail, and in the same tick
    B is dequeued into the slot, leaving queue [A]. *)
Theorem two_requests_schedule c (A B : FipaDialogue) :
  waiting (transaction c) = [A; B] →
  processing (transaction c) = None →
  tick_interval (transaction c) = 1%float →
  max_processing (transaction c) = 2%float →
  ∃ m1 l1 r1 m2 l2 r2,
    ledger_api_create (ledger_api_dialogues c) LEDGER_API_ADDRESS
      (GET_RAW_TRANSACTION (terms A)) = (m1, l1, r1) ∧
    ledger_api_create r1 LEDGER_API_ADDRESS
      (GET_RAW_TRANSACTION (terms B)) = (m2, l2, r2) ∧
    let dA := {| dialogue_label := l1; associated_fipa_dialogue := A |} in
    let dB := {| dialogue_label := l2; associated_fipa_dialogue := B |} in
    let old := timedout (transaction c) in
    snapshot (ticks 1 c) = (Some dA, 0%float, [B], old) ∧
    snapshot (ticks 2 c) = (Some dA, 1%float, [B], old) ∧
    snapshot (ticks 3 c) = (Some dA, 2%float, [B], old) ∧
    snapshot (ticks 4 c) = (Some dA, 3%float, [B], old) ∧
    snapshot (ticks 5 c) = (Some dB, 0%float, [A], {[l1]} ∪ old) ∧
    outbox (ticks 4 c) = outbox c ++ [LedgerApiMsg m1] ∧
    outbox (ticks 5 c) = outbox c ++ [LedgerApiMsg m1; LedgerApiMsg m2].
Proof.
  intros Hw Hp Ht Hmax.
  destruct (ledger_api_create (ledger_api_dialogues c) _ _) as [[m1 l1] r1] eqn:E1.
  destruct (ledger_api_create r1 LEDGER_API_ADDRESS (GET_RAW_TRANSACTION (terms B)))
    as [[m2 l2] r2] eqn:E2.
  exists m1, l1, r1, m2, l2, r2. split; [done|]. split; [done|]. cbv zeta.
  set (dA := {| dialogue_label := l1; associated_fipa_dialogue := A |}).
  pose proof (ticks_S 0 c) as H1. pose proof (ticks_S 1 c) as H2.
  pose proof (ticks_S 2 c) as H3. pose proof (ticks_S 3 c) as H4.
  pose proof (ticks_S 4 c) as H5. change (ticks 0 c) with c in H1.
  generalize dependent (ticks 5 c). generalize dependent (ticks 4 c).
  generalize dependent (ticks 3 c). generalize dependent (ticks 2 c).
  generalize dependent (ticks 1 c). intros t1 H1 t2 H2 t3 H3 t4 H4 t5 H5.
  rewrite (step_tick_start c A [B] Hp Hw), (start_processing_cons c A [B] Hw) in H1.
  cbv zeta in H1. rewrite E1, Ht, Hmax in H1. cbn in H1.
  rewrite H1, (step_tick_wait _ dA) in H2 by reflexivity. cbn in H2.
  rewrite H2, (step_tick_wait _ dA) in H3 by reflexivity. cbn in H3.
  rewrite H3, (step_tick_wait _ dA) in H4 by reflexivity. cbn in H4.
  rewrite H4, (step_tick_timeout _ dA B [A]) in H5 by reflexivity.
  rewrite (timeout_processing_occupied _ dA) in H5 by reflexivity.
  cbn [snd] in H5.
  rewrite (start_processing_cons _ B [A]) in H5 by reflexivity.
  cbn in H5. rewrite E2 in H5. cbn in H5.
  rewrite H1, H2, H3, H4, H5. unfold snapshot. cbn.
  rewrite <- app_assoc. by split_and!.
Qed.

End SchedulerProperties.

(** * The scenarios, run on the concrete skill *)
Section Scenarios.
Import Scenario TransactionBehaviour.

(** After one tick of the two-request scenario A is in flight: its reply
    clears the slot, and a reply for an unknown dialogue raises.  After
    five ticks of the one-request scenario the first dialogue has timed
    out and the retry is in flight: the late reply is discarded. *)
Lemma finish_processing_three_cases_witness :
  let c := ticks 1 two_requests in
  let c5 := ticks 5 one_request in
  processing_eq (processing (transaction c)) (dialogue 1 "A") = true ∧
  (finish_processing (dialogue 1 "A") c).1 = Returned tt ∧
  processing (transaction (finish_processing (dialogue 1 "A") c).2) = None ∧
  waiting (transaction (finish_processing (dialogue 1 "A") c).2) = ["B"] ∧
  processing_eq (processing (transaction c5)) (dialogue 1 "A") = false ∧
  label 1 ∈ timedout (transaction c5) ∧
  (finish_processing (dialogue 1 "A") c5).1 = Returned tt ∧
  (label 1 ∉ timedout (transaction (finish_processing (dialogue 1 "A") c5).2)) ∧
  processing_eq (processing (transaction c)) (dialogue 9 "A") = false ∧
  (label 9 ∉ timedout (transaction c)) ∧
  finish_processing (dialogue 9 "A") c = (Raised ValueError, c).
Proof.
  cbv zeta.
  destruct (finish_processing_three_cases (ticks 1 two_requests) (dialogue 1 "A"))
    as (Hmatch & _ & _).
  destruct (Hmatch eq_refl) as (Hret & Hslot & _ & Hqueue & _).
  assert (label 1 ∈ timedout (transaction (ticks 5 one_request))) as Hin
    by (vm_compute; reflexivity).
  destruct (finish_processing_three_cases (ticks 5 one_request) (dialogue 1 "A"))
    as (_ & Hlate & _).
  destruct (Hlate eq_refl Hin) as (Hret5 & _ & Hout & _).
  destruct (finish_processing_three_cases (ticks 1 two_requests) (dialogue 9 "A"))
    as (_ & _ & Hmismatch).
  assert (label 9 ∉ timedout (transaction (ticks 1 two_requests))) as Hnotin
    by (vm_compute; discriminate).
  destruct (Hmismatch eq_refl Hnotin) as [Hraise _].
  split_and!; [reflexivity|exact Hret|exact Hslot|exact Hqueue|reflexivity
              |exact Hin|exact Hret5|exact Hout|reflexivity
              |exact Hnotin|exact Hraise].
Defined.

Lemma act_times_out_the_expired_request_witness :
  let c := ticks 4 two_requests in
  processing (transaction c) = Some (dialogue 1 "A") ∧
  (processing_time (transaction c) <=? max_processing (transaction c))%float = false ∧
  ∃ c_free c',
    _timeout_processing c = (Returned tt, c_free) ∧
    waiting (transaction c_free) = ["B"; "A"] ∧
    processing (transaction c_free) = None ∧
    act c = (Returned tt, c') ∧
    processing (transaction c') = Some (dialogue 2 "B") ∧
    waiting (transaction c') = ["A"].
Proof.
  cbv zeta. split; [reflexivity|]. split; [reflexivity|].
  destruct (act_times_out_the_expired_request (ticks 4 two_requests)
              (dialogue 1 "A") eq_refl eq_refl)
    as (c_free & c' & p' & Ht & _ & Hw & _ & Hp & _ & _ & _ & Hact & _).
  exists c_free, c'. split_and!; [exact Ht|exact Hw|exact Hp|exact Hact| |].
  - replace c' with (act (ticks 4 two_requests)).2 by (by rewrite Hact).
    reflexivity.
  - replace c' with (act (ticks 4 two_requests)).2 by (by rewrite Hact).
    reflexivity.
Defined.

Lemma two_requests_schedule_witness :
  snapshot (ticks 4 two_requests) = (Some (dialogue 1 "A"), 3%float, ["B"], ∅) ∧
  snapshot (ticks 5 two_requests) =
    (Some (dialogue 2 "B"), 0%float, ["A"], {[label 1]} ∪ ∅).
Proof.
  destruct (two_requests_schedule two_requests "A" "B" eq_refl eq_refl eq_refl eq_refl)
    as (m1 & l1 & r1 & m2 & l2 & r2 & E1 & E2 & H).
  cbv zeta in H. destruct H as (_ & _ & _ & H4 & H5 & _).
  injection E1 as <- <- <-. injection E2 as <- <- <-.
  split; [exact H4|exact H5].
Defined.

Lemma two_requests_tick3_counterexample :
  let c := two_requests in
  snapshot c = (None, 0%float, ["A"; "B"], ∅) ∧
  tick_interval (transaction c) = 1%float ∧
  max_processing (transaction c) = 2%float ∧
  snapshot (ticks 3 c) = (Some (dialogue 1 "A"), 2%float, ["B"], ∅) ∧
  waiting (transaction (ticks 3 c)) ≠ ["B"; "A"] ∧
  processing (transaction (ticks 3 c)) ≠ None ∧
  snapshot (ticks 5 c) = (Some (dialogue 2 "B"), 0%float, ["A"], {[label 1]}).
Proof. cbv zeta. split_and!; try (vm_compute; reflexivity); vm_compute; discriminate. Qed.

Lemma failed_processing_requeues_an_accepted_reply_witness :
  let c := ticks 1 two_requests in
  processing_eq (processing (transaction c)) (dialogue 1 "A") = true ∧
  ∃ c',
    failed_processing (dialogue 1 "A") c = (Returned tt, c') ∧
    waiting (transaction c') = ["B"; "A"] ∧
    processing (transaction c') = None.
Proof.
  cbv zeta. split; [reflexivity|].
  destruct (failed_processing_requeues_an_accepted_reply
              (ticks 1 two_requests) (dialogue 1 "A")) as [Hacc _].
  destruct (Hacc (or_introl eq_refl)) as (c' & Hrun & Hw & Hslot & _).
  exists c'. split_and!; [exact Hrun|exact Hw|exact (Hslot eq_refl)].
Defined.

Lemma failed_processing_unmatched_counterexample :
  let c := two_requests in
  let d := dialogue 9 "A" in
  (failed_processing d c).1 = Raised ValueError ∧
  waiting (transaction (failed_processing d c).2) = ["A"; "B"] ∧
  waiting (transaction (failed_processing d c).2) ≠
    waiting (transaction c) ++ [associated_fipa_dialogue d].
Proof. cbv zeta. split_and!; try (vm_compute; reflexivity); vm_compute; discriminate. Qed.

Lemma act_while_processing_only_advances_the_clock_witness :
  let c := ticks 1 two_requests in
  processing (transaction c) = Some (dialogue 1 "A") ∧
  (processing_time (transaction c) <=? max_processing (transaction c))%float = true ∧
  ∃ c',
    act c = (Returned tt, c') ∧
    processing_time (transaction c') = 1%float ∧
    waiting (transaction c') = ["B"] ∧
    outbox c' = outbox c.
Proof.
  cbv zeta. split; [reflexivity|]. split; [reflexivity|].
  destruct (act_while_processing_only_advances_the_clock (ticks 1 two_requests)
              (dialogue 1 "A") eq_refl eq_refl)
    as (c' & Hrun & Hpt & Hw & _ & _ & _ & _ & Ho & _).
  exists c'. split_and!; [exact Hrun|exact Hpt|exact Hw|exact Ho].
Defined.

Lemma act_idle_dequeues_the_head_witness :
  processing (transaction two_requests) = None ∧
  waiting (transaction two_requests) = ["A"; "B"] ∧
  ∃ c' msg,
    act two_requests = (Returned tt, c') ∧
    waiting (transaction c') = ["B"] ∧
    outbox c' = [LedgerApiMsg msg] ∧
    payload msg = "A" ∧
    processing (transaction c') = Some (dialogue 1 "A") ∧
    processing_time (transaction c') = 0%float.
Proof.
  split; [reflexivity|]. split; [reflexivity|].
  destruct (act_idle_dequeues_the_head two_requests "A" ["B"] eq_refl eq_refl)
    as (c' & msg & lbl & registry & E & Hrun & Hw & Ho & _ & Hp & Hpt & _).
  injection E as <- <- <-.
  eexists c', _. split_and!; [exact Hrun|exact Hw|exact Ho|reflexivity|exact Hp|exact Hpt].
Defined.

Lemma late_reply_leaves_the_retry_in_flight_witness :
  let c := ticks 5 one_request in
  processing (transaction c) = Some (dialogue 2 "A") ∧
  dialogue_eqb (dialogue 2 "A") (dialogue 1 "A") = false ∧
  label 1 ∈ timedout (transaction c) ∧
  ∃ c',
    finish_processing (dialogue 1 "A") c = (Returned tt, c') ∧
    timedout (transaction c') = timedout (transaction c) ∖ {[label 1]} ∧
    processing (transaction c') = Some (dialogue 2 "A") ∧
    waiting (transaction c') = waiting (transaction c).
Proof.
  cbv zeta.
  assert (label 1 ∈ timedout (transaction (ticks 5 one_request))) as Hin
    by (vm_compute; reflexivity).
  split; [reflexivity|]. split; [reflexivity|]. split; [exact Hin|].
  destruct (late_reply_leaves_the_retry_in_flight (ticks 5 one_request)
              (dialogue 1 "A") (dialogue 2 "A") eq_refl eq_refl Hin)
    as (c' & Hrun & Ht & Hp & _ & Hw & _).
  exists c'. split_and!; [exact Hrun|exact Ht|exact Hp|exact Hw].
Defined.

Lemma failure_after_timeout_requeues_once_more_witness :
  let c := ticks 5 two_requests in
  label 1 ∈ timedout (transaction c) ∧
  waiting (transaction c) = ["A"] ∧
  ∃ c',
    failed_processing (dialogue 1 "A") c = (Returned tt, c') ∧
    waiting (transaction c') = ["A"; "A"] ∧
    2 ≤ pending_copies "A" c'.
Proof.
  cbv zeta.
  assert (label 1 ∈ timedout (transaction (ticks 5 two_requests))) as Hin
    by (vm_compute; reflexivity).
  split; [exact Hin|]. split; [reflexivity|].
  destruct (failure_after_timeout_requeues_once_more (ticks 5 two_requests)
              (dialogue 1 "A") Hin) as (c' & Hrun & Hw & _ & Htwo).
  exists c'. split_and!; [exact Hrun|exact Hw|].
  apply Htwo. change (waiting (transaction (ticks 5 two_requests))) with ["A"].
  apply list_elem_of_here.
Defined.

Lemma failure_after_timeout_one_copy_counterexample :
  let c := ticks 5 one_request in
  let d := dialogue 1 "A" in
  snapshot c = (Some (dialogue 2 "A"), 0%float, [], {[label 1]}) ∧
  dialogue_label d ∈ timedout (transaction c) ∧
  (failed_processing d c).1 = Returned tt ∧
  snapshot (failed_processing d c).2 = (Some (dialogue 2 "A"), 0%float, ["A"], ∅) ∧
  pending_copies "A" (failed_processing d c).2 = 1.
Proof. cbv zeta. split_and!; vm_compute; reflexivity. Qed.

(** With the defaults (a tick every 2.0, a maximum of 120.0) a request that
    gets no reply is still in the slot after tick 62, with elapsed time
    122.0, and is timed out and retried by tick 63. *)
Lemma default_configuration_times_out :
  snapshot (ticks 62 default_request) =
    (Some (dialogue 1 "A"), 122%float, [], ∅) ∧
  snapshot (ticks 63 default_request) =
    (Some (dialogue 2 "A"), 0%float, [], {[label 1]}).
Proof. split; vm_compute; reflexivity. Qed.

Lemma search_act_skips_while_transactions_wait_witness :
  let c := skill true 1 2 ["A"] in
  waiting (transaction c) ≠ [] ∧
  ∃ c', SearchBehaviour.act c = (Returned tt, c') ∧ outbox c' = [].
Proof.
  cbv zeta.
  assert (waiting (transaction (skill true 1 2 ["A"])) ≠ []) as Hw by discriminate.
  split; [exact Hw|].
  destruct (search_act_skips_while_transactions_wait (skill true 1 2 ["A"])
              (or_intror Hw)) as (c' & Hrun & Ho & _).
  exists c'. split; [exact Hrun|exact Ho].
Defined.

End Scenarios.

(** * Further properties of the scheduler and of the search behaviour *)
Section SchedulerCompositions.
Context `{!Protocols, !Collaborators}.
Import TransactionBehaviour.
Implicit Types (c : SkillContext) (b : GenericTransactionBehaviour)
  (d p : LedgerApiDialogue) (f : FipaDialogue).



(** X2. When [finish_processing] or [failed_processing] raises, the
    exception is [ValueError] (never the [KeyError] of [set.remove]), both
    calls raise it with the context untouched, and the reply matched neither
    the slot nor a timed-out label. *)
Theorem reply_callbacks_raise_atomically c d e :
  (finish_processing d c).1 = Raised e ∨ (failed_processing d c).1 = Raised e →
  e = ValueError ∧
  finish_processing d c = (Raised ValueError, c) ∧
  failed_processing d c = (Raised ValueError, c) ∧
  processing_eq (processing (transaction c)) d = false ∧
  dialogue_label d ∉ timedout (transaction c).
Proof.
  intros Hraised.
  destruct (processing_eq (processing (transaction c)) d) eqn:He.
  { exfalso. rewrite failed_processing_unfold, (finish_processing_match c d He) in Hraised.
    by destruct Hraised. }
  destruct (decide (dialogue_label d ∈ timedout (transaction c))) as [Hin|Hin].
  { exfalso. rewrite failed_processing_unfold, (finish_processing_late c d He Hin) in Hraised.
    by destruct Hraised. }
  rewrite failed_processing_unfold, (finish_processing_mismatch c d He Hin) in *.
  split_and!; try done. destruct Hraised as [Hr|Hr]; cbn in Hr; congruence.
Qed.


(** The idle scheduler stays idle. *)
Lemma step_tick_idle c :
  processing (transaction c) = None → waiting (transaction c) = [] →
  step c Tick = c.
Proof.
  intros Hp Hw. unfold step. cbn [exec].
  by rewrite (act_free c Hp), (act_idle_nil c Hw).
Qed.

(** X3. With nothing in the slot and nothing waiting, as after
    [__init__], any number of ticks leaves the whole context unchanged. *)
Theorem idle_scheduler_stays_idle c n :
  processing (transaction c) = None →
  waiting (transaction c) = [] →
  ticks n c = c.
Proof.
  intros Hp Hw. induction n as [|n IH]; [done|].
  by rewrite ticks_S, IH, step_tick_idle.
Qed.

Lemma requests_step_tick c : requests (step c Tick) ≡ₚ requests c.
Proof.
  unfold requests.
  destruct (processing (transaction c)) as [p|] eqn:Hp.
  - destruct (processing_time (transaction c) <=? max_processing (transaction c))%float
      eqn:Hle.
    + rewrite (step_tick_wait c p Hp Hle). cbn. by rewrite Hp.
    + destruct (waiting (transaction c) ++ [associated_fipa_dialogue p])
        as [|f rest] eqn:Hq; [by destruct (waiting (transaction c))|].
      rewrite (step_tick_timeout c p f rest Hp Hle Hq).
      rewrite (timeout_processing_occupied c p Hp). cbn [snd].
      rewrite (start_processing_cons _ f rest) by (cbn; done).
      cbn. rewrite <- Hq. by rewrite Permutation_app_comm.
  - destruct (waiting (transaction c)) as [|f rest] eqn:Hw.
    + rewrite (step_tick_idle c Hp Hw). by rewrite Hp, Hw.
    + rewrite (step_tick_start c f rest Hp Hw), (start_processing_cons c f rest Hw).
      done.
Qed.

(** X4. Ticks alone neither lose nor duplicate a request: after any number
    of ticks the request in the slot together with the waiting queue is a
    permutation of what it was. *)
Theorem ticks_conserve_requests c n :
  requests (ticks n c) ≡ₚ requests c ∧
  length (requests (ticks n c)) = length (requests c).
Proof.
  assert (requests (ticks n c) ≡ₚ requests c) as Hperm.
  { induction n as [|n IH]; [done|].
    by rewrite ticks_S, requests_step_tick. }
  split; [done|]. by rewrite Hperm.
Qed.


Lemma start_processing_effect c :
  frame_of (_start_processing c).2 = frame_of c ∧
  ∃ sent : list LedgerApiMessage,
    outbox (_start_processing c).2 = outbox c ++ (LedgerApiMsg <$> sent) ∧
    length sent ≤ 1.
Proof.
  destruct (waiting (transaction c)) as [|f rest] eqn:Hw.
  - rewrite (start_processing_nil c Hw). split; [done|].
    exists []. split; [by rewrite app_nil_r|cbn; lia].
  - rewrite (start_processing_cons c f rest Hw). cbv zeta. split; [done|].
    eexists [_]. split; [done|cbn; lia].
Qed.

Lemma act_idle_effect c :
  frame_of (act_idle c).2 = frame_of c ∧
  ∃ sent : list LedgerApiMessage,
    outbox (act_idle c).2 = outbox c ++ (LedgerApiMsg <$> sent) ∧
    length sent ≤ 1.
Proof.
  destruct (waiting (transaction c)) as [|f rest] eqn:Hw.
  - rewrite (act_idle_nil c Hw). split; [done|].
    exists []. split; [by rewrite app_nil_r|cbn; lia].
  - rewrite (act_idle_cons c f rest Hw). apply start_processing_effect.
Qed.

Lemma finish_processing_frame c d :
  frame_of (finish_processing d c).2 = frame_of c.
Proof.
  destruct (processing_eq (processing (transaction c)) d) eqn:He.
  - by rewrite (finish_processing_match c d He).
  - destruct (decide (dialogue_label d ∈ timedout (transaction c))) as [Hin|Hin].
    + by rewrite (finish_processing_late c d He Hin).
    + by rewrite (finish_processing_mismatch c d He Hin).
Qed.

Lemma step_effect c op :
  frame_of (step c op) = frame_of c ∧
  ∃ sent : list LedgerApiMessage,
    outbox (step c op) = outbox c ++ (LedgerApiMsg <$> sent) ∧
    length sent ≤ (if is_tick op then 1 else 0).
Proof.
  assert (∀ c', outbox c' = outbox c →
    ∃ sent : list LedgerApiMessage,
      outbox c' = outbox c ++ (LedgerApiMsg <$> sent) ∧ length sent ≤ 0) as Hnone.
  { intros c' ->. exists []. split; [by rewrite app_nil_r|cbn; lia]. }
  destruct op as [|d|d|f]; unfold step; cbn [exec is_tick].
  - destruct (processing (transaction c)) as [p|] eqn:Hp.
    + destruct (processing_time (transaction c) <=? max_processing (transaction c))%float
        eqn:Hle.
      * rewrite (act_in_time c p Hp Hle). split; [done|].
        exists []. split; [by rewrite app_nil_r|cbn; lia].
      * rewrite (act_expired c p Hp Hle), (timeout_processing_occupied c p Hp).
        cbn [snd]. set (c1 := set_transaction _ c).
        destruct (act_idle_effect c1) as (Hf & sent & Ho & Hn).
        split; [by rewrite Hf|]. exists sent. split; [by rewrite Ho|done].
    + rewrite (act_free c Hp). apply act_idle_effect.
  - split; [apply finish_processing_frame|].
    apply Hnone, finish_processing_outbox.
  - split.
    + rewrite failed_processing_unfold.
      pose proof (finish_processing_frame c d) as Hf.
      by destruct (finish_processing d c) as [[[]|e] c1].
    + apply Hnone, failed_processing_outbox.
  - split; [done|]. by apply Hnone.
Qed.

(** X5. No sequence of ticks, replies, failures and enqueues changes the
    scheduler's [tick_interval] and [max_processing], the strategy, the
    search registry or the search service address. *)
Theorem run_keeps_configuration_and_search_state c ops :
  tick_interval (transaction (run ops c)) = tick_interval (transaction c) ∧
  max_processing (transaction (run ops c)) = max_processing (transaction c) ∧
  strategy (run ops c) = strategy c ∧
  oef_search_dialogues (run ops c) = oef_search_dialogues c ∧
  search_service_address (run ops c) = search_service_address c.
Proof.
  assert (frame_of (run ops c) = frame_of c) as Hf.
  { revert c. induction ops as [|op ops IH]; intros c; [done|].
    change (run (op :: ops) c) with (run ops (step c op)).
    rewrite IH. apply step_effect. }
  unfold frame_of in Hf. by simplify_eq.
Qed.

(** X6. Over any sequence of operations the outbox only grows at its end,
    by ledger API messages, and by at most one message for each tick in the
    sequence; replies, failures and enqueues send nothing. *)
Theorem run_submits_at_most_one_message_per_tick c ops :
  ∃ sent : list LedgerApiMessage,
    outbox (run ops c) = outbox c ++ (LedgerApiMsg <$> sent) ∧
    length sent ≤ length (filter is_tick ops).
Proof.
  revert c. induction ops as [|op ops IH]; intros c.
  - exists []. cbn. split; [by rewrite app_nil_r|lia].
  - change (run (op :: ops) c) with (run ops (step c op)).
    destruct (IH (step c op)) as (later & Hlater & Hn).
    destruct (step_effect c op) as (_ & now & Hnow & Hone).
    exists (now ++ later). rewrite Hlater, Hnow, fmap_app, app_assoc.
    split; [done|]. rewrite length_app, filter_cons.
    destruct op; cbn in *; case_decide; try done; cbn [length]; lia.
Qed.


(** X7. A reply for the dialogue in the slot is accepted once: when its
    label is not among the timed-out ones, the same reply delivered again,
    as a success or as a failure, raises [ValueError]. *)
Theorem a_reply_is_accepted_only_once c d :
  processing_eq (processing (transaction c)) d = true →
  dialogue_label d ∉ timedout (transaction c) →
  ∃ c',
    finish_processing d c = (Returned tt, c') ∧
    finish_processing d c' = (Raised ValueError, c') ∧
    failed_processing d c' = (Raised ValueError, c').
Proof.
  intros He Hnotin. rewrite (finish_processing_match c d He).
  eexists. split; [done|].
  rewrite failed_processing_unfold.
  by rewrite finish_processing_mismatch.
Qed.

(** X8. After the tick that times a dialogue out, its late reply is
    accepted exactly once: the label, fresh before the timeout, is in
    [timedout] after the tick; the reply removes it and changes nothing
    else of the scheduler; a second late reply raises [ValueError]. *)
Theorem a_timed_out_dialogue_gets_one_late_reply c p :
  processing (transaction c) = Some p →
  (processing_time (transaction c) <=? max_processing (transaction c))%float = false →
  dialogue_label p ∉ timedout (transaction c) →
  processing_eq (processing (transaction (step c Tick))) p = false →
  ∃ c',
    dialogue_label p ∈ timedout (transaction (step c Tick)) ∧
    finish_processing p (step c Tick) = (Returned tt, c') ∧
    snapshot c' = (processing (transaction (step c Tick)),
                   processing_time (transaction (step c Tick)),
                   waiting (transaction (step c Tick)),
                   timedout (transaction c)) ∧
    finish_processing p c' = (Raised ValueError, c').
Proof.
  intros Hp Hle Hfresh Hne.
  assert (timedout (transaction (step c Tick)) =
          {[dialogue_label p]} ∪ timedout (transaction c)) as Ht.
  { destruct (waiting (transaction c) ++ [associated_fipa_dialogue p])
      as [|f rest] eqn:Hq; [by destruct (waiting (transaction c))|].
    rewrite (step_tick_timeout c p f rest Hp Hle Hq).
    rewrite (timeout_processing_occupied c p Hp). cbn [snd].
    by rewrite (start_processing_cons _ f rest). }
  assert (dialogue_label p ∈ timedout (transaction (step c Tick))) as Hin
    by (rewrite Ht; apply elem_of_union; left; by apply elem_of_singleton).
  assert (timedout (transaction (step c Tick)) ∖ {[dialogue_label p]} =
          timedout (transaction c)) as Hback.
  { rewrite Ht. apply set_eq. intros l.
    rewrite elem_of_difference, elem_of_union, elem_of_singleton.
    destruct (decide (l = dialogue_label p)) as [->|]; tauto. }
  rewrite (finish_processing_late _ p Hne Hin).
  eexists. split_and!; [done|done| |].
  - unfold snapshot. cbn. by rewrite Hback.
  - apply finish_processing_mismatch; cbn; [done|]. by rewrite Hback.
Qed.

Lemma serve_head c f rest :
  (∀ d, dialogue_eqb d d = true) →
  processing (transaction c) = None →
  waiting (transaction c) = f :: rest →
  let created :=
    ledger_api_create (ledger_api_dialogues c) LEDGER_API_ADDRESS
      (GET_RAW_TRANSACTION (terms f)) in
  snapshot (serve c) = (None, 0%float, rest, timedout (transaction c)) ∧
  outbox (serve c) = outbox c ++ [LedgerApiMsg created.1.1] ∧
  ledger_api_dialogues (serve c) = created.2.
Proof.
  intros Hrefl Hp Hw. cbv zeta. unfold serve.
  rewrite (step_tick_start c f rest Hp Hw), (start_processing_cons c f rest Hw).
  cbv zeta. cbn [snd transaction processing]. unfold step. cbn [exec].
  rewrite finish_processing_match by (cbn; apply Hrefl).
  split_and!; reflexivity.
Qed.

(** X9. When [==] is reflexive on dialogues and every submitted request is
    answered before the next tick, a queue is served in its order: after as
    many tick-and-reply rounds as there are requests the queue and the slot
    are empty, no label has timed out, and the outbox has grown by the
    messages created for the requests, first to last. *)
Theorem answered_requests_are_served_in_queue_order c :
  (∀ d, dialogue_eqb d d = true) →
  processing (transaction c) = None →
  let q := waiting (transaction c) in
  let c' := Nat.iter (length q) serve c in
  waiting (transaction c') = [] ∧
  processing (transaction c') = None ∧
  timedout (transaction c') = timedout (transaction c) ∧
  outbox c' =
    outbox c ++ (LedgerApiMsg <$> (submissions q (ledger_api_dialogues c)).1) ∧
  ledger_api_dialogues c' = (submissions q (ledger_api_dialogues c)).2 ∧
  length (outbox c') = length (outbox c) + length q.
Proof.
  intros Hrefl Hp. cbv zeta.
  remember (waiting (transaction c)) as q eqn:Hq. symmetry in Hq.
  revert c Hp Hq. induction q as [|f rest IH]; intros c Hp Hq.
  - cbn. rewrite app_nil_r. split_and!; first [done|lia].
  - destruct (serve_head c f rest Hrefl Hp Hq) as (Hsnap & Hout & Hreg).
    unfold snapshot in Hsnap. injection Hsnap as Hp1 _ Hw1 Ht1.
    cbn [length]. rewrite Nat.iter_succ_r.
    destruct (IH (serve c) Hp1 Hw1) as (Hw' & Hp' & Ht' & Ho' & Hr' & Hn').
    split_and!; try done.
    + by rewrite Ht', Ht1.
    + rewrite Ho', Hout, Hreg. cbn. by rewrite <- app_assoc.
    + by rewrite Hr', Hreg.
    + rewrite Hn', Hout, length_app. cbn. lia.
Qed.


Lemma fail_and_retry_alone c p :
  (∀ d, dialogue_eqb d d = true) →
  processing (transaction c) = Some p →
  waiting (transaction c) = [] →
  let created :=
    ledger_api_create (ledger_api_dialogues c) LEDGER_API_ADDRESS
      (GET_RAW_TRANSACTION (terms (associated_fipa_dialogue p))) in
  snapshot (fail_and_retry c) =
    (Some {| dialogue_label := created.1.2;
             associated_fipa_dialogue := associated_fipa_dialogue p |},
     0%float, [], timedout (transaction c)) ∧
  outbox (fail_and_retry c) = outbox c ++ [LedgerApiMsg created.1.1].
Proof.
  intros Hrefl Hp Hw. cbv zeta. unfold fail_and_retry. rewrite Hp.
  assert (processing_eq (processing (transaction c)) p = true) as He
    by (rewrite Hp; apply Hrefl).
  assert (step c (Failure p) =
    set_transaction
      (set_waiting [associated_fipa_dialogue p]
         (set_processing None (set_processing_time 0%float (transaction c)))) c)
    as ->.
  { unfold step. cbn [exec].
    rewrite failed_processing_unfold, (finish_processing_match c p He).
    cbn. by rewrite Hw. }
  rewrite (step_tick_start _ (associated_fipa_dialogue p) []) by done.
  rewrite (start_processing_cons _ (associated_fipa_dialogue p) []) by done.
  split; reflexivity.
Qed.

(** X10. When [==] is reflexive on dialogues, a lone request that fails is
    resubmitted by the next tick, whatever the number [n] of earlier
    failures: after [n] rounds of failure and tick the same request is in
    the slot, the queue is empty and [n] more messages have been sent. *)
Theorem a_failing_request_is_retried_without_limit c p n :
  (∀ d, dialogue_eqb d d = true) →
  processing (transaction c) = Some p →
  waiting (transaction c) = [] →
  let c' := Nat.iter n fail_and_retry c in
  associated_fipa_dialogue <$> processing (transaction c') =
    Some (associated_fipa_dialogue p) ∧
  waiting (transaction c') = [] ∧
  timedout (transaction c') = timedout (transaction c) ∧
  ∃ sent : list LedgerApiMessage,
    outbox c' = outbox c ++ (LedgerApiMsg <$> sent) ∧ length sent = n.
Proof.
  intros Hrefl Hp Hw. cbv zeta. induction n as [|n IH].
  - cbn. rewrite Hp. split_and!; try done. exists []. by rewrite app_nil_r.
  - rewrite Nat.iter_succ. destruct IH as (Hslot & Hw' & Ht' & sent & Ho' & Hn').
    destruct (processing (transaction (Nat.iter n fail_and_retry c)))
      as [p'|] eqn:Hp'; [|done].
    injection Hslot as Hf.
    destruct (fail_and_retry_alone _ p' Hrefl Hp' Hw') as [Hsnap Hout].
    unfold snapshot in Hsnap. injection Hsnap as Hp1 _ Hw1 Ht1.
    split_and!.
    + by rewrite Hp1, <- Hf.
    + done.
    + by rewrite Ht1.
    + eexists (sent ++ [_]). rewrite Hout, Ho', fmap_app, <- app_assoc.
      split; [done|]. rewrite length_app. cbn. lia.
Qed.

(** X11. If adding [tick_interval] to the elapsed time gives the elapsed
    time back in binary64 arithmetic (a zero interval, or one too small
    against the elapsed time) while it is within [max_processing], no
    number of ticks ever times the request out: the context never changes. *)
Theorem an_absorbed_tick_interval_never_times_out c p n :
  processing (transaction c) = Some p →
  (processing_time (transaction c) <=? max_processing (transaction c))%float = true →
  (processing_time (transaction c) + tick_interval (transaction c))%float =
    processing_time (transaction c) →
  ticks n c = c.
Proof.
  intros Hp Hle Habs. induction n as [|n IH]; [done|].
  rewrite ticks_S, IH, (step_tick_wait c p Hp Hle), Habs.
  by destruct c as [? ? ? ? ? ? []].
Qed.

(** X12. When the strategy is searching and no transaction is waiting, the
    search behaviour's [act] updates the query parameters, creates one
    search dialogue for the resulting query at the search service address
    and puts its message at the end of the outbox; the log, the ledger API
    registry and the transaction behaviour are unchanged. *)
Theorem search_act_searches_when_no_transaction_waits c :
  is_searching (strategy c) = true →
  waiting (transaction c) = [] →
  ∃ c' q st msg registry,
    get_location_and_service_query (update_search_query_params (strategy c)) = (q, st) ∧
    oef_search_create (oef_search_dialogues c) (search_service_address c)
      (SEARCH_SERVICES q) = (msg, registry) ∧
    SearchBehaviour.act c = (Returned tt, c') ∧
    outbox c' = outbox c ++ [OefSearchMsg msg] ∧
    oef_search_dialogues c' = registry ∧
    strategy c' = st ∧
    logger c' = logger c ∧
    ledger_api_dialogues c' = ledger_api_dialogues c ∧
    transaction c' = transaction c.
Proof.
  intros Hs Hw.
  unfold SearchBehaviour.act, SearchBehaviour.location_and_service_query,
    SearchBehaviour.create, bind, get, ret, put_message, modify.
  rewrite Hs, Hw. cbn [negb length].
  destruct (decide (0 < 0)) as [?|_]; [lia|]. cbn.
  destruct (get_location_and_service_query _) as [q st]. cbn.
  destruct (oef_search_create _ _ _) as [msg registry] eqn:E. cbn.
  eexists _, q, st, msg, registry. by split_and!.
Qed.


End SchedulerCompositions.

(** * Properties of the profiling counts *)
Section ProfilingProperties.
Import Profiling.

Lemma bump_bump o a b : bump (bump o a) b = bump o (a + b).
Proof.
  unfold bump. repeat case_decide; subst; cbn; try done; try lia; f_equal; lia.
Qed.

Lemma dialogues_named_cons name o objs :
  dialogues_named name (o :: objs) =
    (if decide (is_Dialogue o = true ∧ type_name o = name) then 1 else 0)
    + dialogues_named name objs.
Proof. unfold dialogues_named. rewrite filter_cons. by case_decide. Qed.

Lemma storage_labels_cons o objs :
  storage_labels (o :: objs) =
    (if decide (is_Dialogue o = false ∧ is_BasicDialoguesStorage o = true)
     then incomplete_to_complete_dialogue_labels o else 0)
    + storage_labels objs.
Proof. unfold storage_labels. rewrite filter_cons. by case_decide. Qed.

Lemma gain_cons name o objs :
  gain name (o :: objs) = gain name [o] + gain name objs.
Proof.
  unfold gain. rewrite !dialogues_named_cons, !storage_labels_cons.
  unfold dialogues_named, storage_labels. cbn.
  repeat case_decide; lia.
Qed.

Lemma gain_single name o :
  gain name [o] =
    if is_Dialogue o
    then (if decide (type_name o = name) then 1 else 0)
    else if is_BasicDialoguesStorage o
         then (if decide (name = LABELS_KEY)
               then incomplete_to_complete_dialogue_labels o else 0)
         else 0.
Proof.
  unfold gain. rewrite dialogues_named_cons, storage_labels_cons.
  unfold dialogues_named, storage_labels. cbn.
  destruct (is_Dialogue o), (is_BasicDialoguesStorage o);
    repeat case_decide; try lia; intuition congruence.
Qed.

Lemma bump_0 o : bump o 0 = o.
Proof. done. Qed.

Lemma visit_fresh t o :
  id o ∉ seen_dialogue_ids t →
  id o ∉ seen_dialogue_storage_ids t →
  is_Some (dialogues_by_type t !! LABELS_KEY) →
  ∃ t',
    visit t o = inr t' ∧
    (∀ name, dialogues_by_type t' !! name =
               bump (dialogues_by_type t !! name) (gain name [o])) ∧
    seen_dialogue_ids t' ⊆ seen_dialogue_ids t ++ [id o] ∧
    seen_dialogue_storage_ids t' ⊆ seen_dialogue_storage_ids t ++ [id o].
Proof.
  intros Hd Hs [n Hn]. unfold visit.
  rewrite (bool_decide_eq_true_2 _ Hd), (bool_decide_eq_true_2 _ Hs), !andb_true_r.
  destruct (is_Dialogue o) eqn:Hdia; [|destruct (is_BasicDialoguesStorage o) eqn:Hsto].
  - eexists. split; [done|].
    cbn [dialogues_by_type seen_dialogue_ids seen_dialogue_storage_ids].
    split_and!; [|done|intros x Hx; apply elem_of_app; by left].
    intros name. rewrite gain_single, Hdia.
    destruct (decide (type_name o = name)) as [<-|Hne].
    + unfold bump. rewrite decide_False by lia.
      destruct (dialogues_by_type t !! type_name o) as [k|] eqn:Hk;
        by rewrite lookup_insert_eq.
    + rewrite bump_0.
      destruct (dialogues_by_type t !! type_name o); by rewrite lookup_insert_ne.
  - rewrite Hn. eexists. split; [done|].
    cbn [dialogues_by_type seen_dialogue_ids seen_dialogue_storage_ids].
    split_and!; [|intros x Hx; apply elem_of_app; by left|done].
    intros name. rewrite gain_single, Hdia, Hsto.
    destruct (decide (name = LABELS_KEY)) as [->|Hne].
    + rewrite lookup_insert_eq, Hn. unfold bump.
      case_decide as H0; cbn; [rewrite H0|]; f_equal; lia.
    + by rewrite lookup_insert_ne.
  - eexists. split; [done|].
    split_and!; [|intros x Hx; apply elem_of_app; by left..].
    intros name. by rewrite gain_single, Hdia, Hsto.
Qed.

Lemma visit_all_spec objs : ∀ t,
  NoDup (id <$> objs) →
  (∀ o, o ∈ objs →
     (id o ∉ seen_dialogue_ids t) ∧ (id o ∉ seen_dialogue_storage_ids t)) →
  is_Some (dialogues_by_type t !! LABELS_KEY) →
  ∃ t',
    visit_all t objs = inr t' ∧
    ∀ name, dialogues_by_type t' !! name =
              bump (dialogues_by_type t !! name) (gain name objs).
Proof.
  induction objs as [|o objs IH]; intros t Hnd Hfresh Hkey.
  - exists t. split; [done|]. intros name. unfold gain, bump, dialogues_named, storage_labels.
    cbn. repeat case_decide; try lia; done.
  - apply NoDup_cons in Hnd as [Hnotin Hnd].
    destruct (Hfresh o) as [Hd Hs]; [left|].
    destruct (visit_fresh t o Hd Hs Hkey) as (t1 & Hv & Hm & Hsd & Hss).
    destruct (IH t1 Hnd) as (t' & Hrun & Hm').
    + intros o' Hin'. destruct (Hfresh o') as [Hd' Hs']; [by right|].
      assert (id o' ≠ id o) as Hne.
      { intros Heq. apply Hnotin. rewrite <- Heq. apply list_elem_of_fmap. eauto. }
      split; intros Hx; [apply Hsd in Hx|apply Hss in Hx];
        apply elem_of_app in Hx as [Hx|Hx]; try done;
        by apply list_elem_of_singleton in Hx.
    + rewrite Hm. destruct Hkey as [n Hn]. rewrite Hn. unfold bump.
      case_decide; eauto.
    + exists t'. split; [cbn [visit_all]; by rewrite Hv|].
      intros name. by rewrite Hm', Hm, bump_bump, (gain_cons name o objs).
Qed.

(** X14. When the collector returns objects with distinct ids,
    [get_dialogues_by_type] returns normally; the entry of a type name is
    the number of dialogues of that type, and is missing when there is
    none; the entry [incomplete_to_complete_dialogue_labels] is the number
    of labels held by the storages (plus the dialogues of a type of that
    very name). *)
Theorem get_dialogues_by_type_counts gc_objects :
  NoDup (id <$> gc_objects) →
  ∃ m,
    get_dialogues_by_type gc_objects = inr m ∧
    m !! LABELS_KEY =
      Some (storage_labels gc_objects + dialogues_named LABELS_KEY gc_objects) ∧
    ∀ name, name ≠ LABELS_KEY →
      m !! name =
        if decide (dialogues_named name gc_objects = 0) then None
        else Some (dialogues_named name gc_objects).
Proof.
  intros Hnd. unfold get_dialogues_by_type.
  destruct (visit_all_spec gc_objects
              {| seen_dialogue_ids := []; seen_dialogue_storage_ids := [];
                 dialogues_by_type := {[LABELS_KEY := 0]} |} Hnd)
    as (t' & Hrun & Hm).
  - intros o _. cbn. split; apply not_elem_of_nil.
  - cbn [dialogues_by_type]. rewrite lookup_singleton_eq. eauto.
  - rewrite Hrun. exists (dialogues_by_type t'). split; [reflexivity|]. split.
    + rewrite Hm. cbn [dialogues_by_type]. rewrite lookup_singleton_eq.
      unfold gain. rewrite decide_True by done. unfold bump.
      case_decide as H0; cbn; f_equal; lia.
    + intros name Hne. rewrite Hm. cbn [dialogues_by_type].
      rewrite lookup_singleton_ne by done.
      unfold gain. rewrite decide_False by done. rewrite Nat.add_0_r.
      unfold bump. by case_decide.
Qed.


Lemma visit_keeps_labels_key t o :
  is_Some (dialogues_by_type t !! LABELS_KEY) →
  ∃ t', visit t o = inr t' ∧ is_Some (dialogues_by_type t' !! LABELS_KEY).
Proof.
  intros [n Hn]. unfold visit.
  destruct (is_Dialogue o && _).
  - eexists. split; [done|]. cbn [dialogues_by_type].
    destruct (decide (type_name o = LABELS_KEY)) as [->|Hne].
    + rewrite Hn, lookup_insert_eq. eauto.
    + destruct (dialogues_by_type t !! type_name o);
        rewrite lookup_insert_ne by done; eauto.
  - destruct (is_BasicDialoguesStorage o && _).
    + rewrite Hn. eexists. split; [done|]. cbn [dialogues_by_type].
      rewrite lookup_insert_eq. eauto.
    + eauto.
Qed.

(** X15. Whatever the collector returns, [get_dialogues_by_type] never
    raises [KeyError], and its result has the entry
    [incomplete_to_complete_dialogue_labels]. *)
Theorem get_dialogues_by_type_never_raises gc_objects :
  ∃ m,
    get_dialogues_by_type gc_objects = inr m ∧
    is_Some (m !! LABELS_KEY).
Proof.
  unfold get_dialogues_by_type.
  assert (∀ t, is_Some (dialogues_by_type t !! LABELS_KEY) →
    ∃ t', visit_all t gc_objects = inr t' ∧
          is_Some (dialogues_by_type t' !! LABELS_KEY)) as Hall.
  { induction gc_objects as [|o objs IH]; intros t Hkey; [by exists t|].
    destruct (visit_keeps_labels_key t o Hkey) as (t1 & Hv & Hkey1).
    destruct (IH t1 Hkey1) as (t' & Hrun & Hkey').
    exists t'. cbn [visit_all]. by rewrite Hv. }
  destruct (Hall {| seen_dialogue_ids := []; seen_dialogue_storage_ids := [];
                    dialogues_by_type := {[LABELS_KEY := 0]} |})
    as (t' & Hrun & Hkey).
  - cbn [dialogues_by_type]. rewrite lookup_singleton_eq. eauto.
  - rewrite Hrun. eauto.
Qed.

Section Instances.
Context {Obj Ty : Type}.
Variable isinstance : Obj → Ty → bool.
Variable __name__ : Ty → string.

Lemma counter_add_lookup name k result n :
  counter_add n k result !! name =
    if decide (n = name) then Some (default 0 (result !! name) + k)
    else result !! name.
Proof.
  unfold counter_add. case_decide as Hn.
  - subst. by rewrite lookup_insert_eq.
  - by rewrite lookup_insert_ne.
Qed.

Lemma register_types_lookup name (types : list Ty) : ∀ result,
  foldl (λ result obj_type, counter_add (__name__ obj_type) 0 result) result types
    !! name =
  if decide (name ∈ __name__ <$> types)
  then Some (default 0 (result !! name)) else result !! name.
Proof.
  induction types as [|T types IH]; intros result; cbn [foldl fmap list_fmap].
  - rewrite decide_False by apply not_elem_of_nil. done.
  - rewrite IH, counter_add_lookup.
    destruct (decide (__name__ T = name)) as [Heq|Hne].
    + rewrite (decide_True (P := name ∈ __name__ T :: _))
        by (rewrite <- Heq; left).
      case_decide; cbn; f_equal; lia.
    + destruct (decide (name ∈ __name__ <$> types)) as [Hin|Hnin].
      * by rewrite decide_True by (by right).
      * rewrite decide_False; [done|].
        intros [?|?]%elem_of_cons; done.
Qed.

Lemma count_object_lookup name obj (types : list Ty) : ∀ result,
  foldl (λ result obj_type,
           if isinstance obj obj_type
           then counter_add (__name__ obj_type) 1 result else result)
    result types !! name =
  bump (result !! name)
    (length (filter (λ T, __name__ T = name ∧ isinstance obj T = true) types)).
Proof.
  induction types as [|T types IH]; intros result; cbn [foldl]; [done|].
  rewrite IH, filter_cons.
  destruct (isinstance obj T) eqn:Hi.
  - rewrite counter_add_lookup.
    destruct (decide (__name__ T = name)) as [Heq|Hne].
    + rewrite decide_True by done. cbn [length].
      unfold bump. cbn. repeat case_decide; try lia; f_equal; lia.
    + by rewrite decide_False by (intros []; done).
  - by rewrite decide_False by (intros []; done).
Qed.

Lemma count_objects_lookup name (types : list Ty) (objs : list Obj) : ∀ result,
  foldl (λ result obj,
           foldl (λ result obj_type,
                    if isinstance obj obj_type
                    then counter_add (__name__ obj_type) 1 result else result)
             result types)
    result objs !! name =
  bump (result !! name) (instances_named isinstance __name__ name types objs).
Proof.
  induction objs as [|obj objs IH]; intros result; [done|].
  cbn [foldl]. rewrite IH, count_object_lookup, bump_bump. done.
Qed.

Lemma no_type_of_that_name name obj (types : list Ty) :
  name ∉ __name__ <$> types →
  filter (λ T, __name__ T = name ∧ isinstance obj T = true) types = [].
Proof.
  induction types as [|T types IH]; intros Hnin; [done|].
  rewrite filter_cons, decide_False.
  - apply IH. intros Hin. apply Hnin. by right.
  - intros [Heq _]. apply Hnin. rewrite <- Heq. left.
Qed.

Lemma instances_named_absent name (types : list Ty) (objs : list Obj) :
  name ∉ __name__ <$> types →
  instances_named isinstance __name__ name types objs = 0.
Proof.
  intros Hnin. unfold instances_named.
  induction objs as [|obj objs IH]; [done|]. cbn.
  by rewrite IH, no_type_of_that_name.
Qed.

(** X16. The result of [get_objects_instances] has an entry exactly for
    the names of the listed types, also for a type without instances; the
    entry of a name is the number of pairs of an object and a listed type
    of that name the object is an instance of, so types sharing a name
    share an entry and a type listed twice counts twice. *)
Theorem get_objects_instances_counts (types : list Ty) (objs : list Obj) name :
  get_objects_instances isinstance __name__ types objs !! name =
    if decide (name ∈ __name__ <$> types)
    then Some (instances_named isinstance __name__ name types objs)
    else None.
Proof.
  unfold get_objects_instances. cbv zeta.
  rewrite count_objects_lookup, register_types_lookup, lookup_empty.
  case_decide as Hin.
  - unfold bump. cbn. case_decide as H0; [by rewrite H0|done].
  - by rewrite instances_named_absent.
Qed.

End Instances.
End ProfilingProperties.

(** * Properties of the symbolic link targets *)
Section SymlinkProperties.
Import Symlinks.

Lemma follow_app a b dir : follow (a ++ b) dir = follow b (follow a dir).
Proof. unfold follow. by rewrite foldl_app. Qed.

Lemma follow_ups d dir :
  follow (replicate (length d) "..") (dir ++ d) = dir.
Proof.
  induction d as [|x d IH] using rev_ind; [by rewrite app_nil_r|].
  rewrite length_app. cbn [length]. replace (length d + 1) with (S (length d)) by lia.
  cbn [replicate]. unfold follow in *. cbn [foldl].
  rewrite decide_True by done.
  rewrite app_assoc, removelast_last. apply IH.
Qed.

Lemma follow_down t dir : ".." ∉ t → follow t dir = dir ++ t.
Proof.
  revert dir. induction t as [|x t IH]; intros dir Hno; [by rewrite app_nil_r|].
  unfold follow in *. cbn [foldl].
  rewrite decide_False by (intros ->; apply Hno; left).
  rewrite IH by (intros Hin; apply Hno; by right).
  by rewrite <- app_assoc.
Qed.

Lemma ups_parts n :
  foldl joinpath here (replicate n up) =
    {| is_absolute := false; parts := replicate n ".." |}.
Proof.
  assert (∀ p, is_absolute p = false →
    foldl joinpath p (replicate n up) =
      {| is_absolute := false; parts := parts p ++ replicate n ".." |}) as Hgen.
  { induction n as [|n IH]; intros [a ps] Ha; cbn in Ha; subst; cbn [replicate foldl].
    - by rewrite app_nil_r.
    - rewrite IH by done. cbn. by rewrite <- app_assoc. }
  by rewrite Hgen.
Qed.

Lemma relative_to_inr p other r :
  relative_to p other = inr r →
  is_absolute p = is_absolute other ∧
  parts p = parts other ++ parts r ∧
  is_absolute r = false.
Proof.
  unfold relative_to. case_bool_decide as Hc; [|done].
  destruct Hc as [Ha Hpre]. intros [= <-]. cbn. split_and!; try done.
  by rewrite <- Hpre at 1; rewrite take_drop.
Qed.

(** X17. When [do_symlink] computes a relative target and neither path has
    a [..] component, the target is a relative path that, followed from the
    directory of the link, leads to the target path. *)
Theorem relative_target_leads_to_the_target ROOT_PATH link_path target_path target :
  relative_target ROOT_PATH link_path target_path = inr target →
  ".." ∉ parts link_path →
  ".." ∉ parts target_path →
  is_absolute target = false ∧
  follow (parts target) (parts (parent link_path)) = parts target_path ∧
  is_absolute (parent link_path) = is_absolute target_path.
Proof.
  unfold relative_target. cbv zeta.
  destruct (relative_to target_path ROOT_PATH) as [|t] eqn:Et; [done|].
  destruct (relative_to (parent link_path) ROOT_PATH) as [|d] eqn:Ed; [done|].
  intros [= <-] Hlink Htarget.
  apply relative_to_inr in Et as (Hat & Hpt & Hrt).
  apply relative_to_inr in Ed as (Had & Hpd & Hrd).
  rewrite ups_parts. unfold joinpath. rewrite Hrt. cbn [is_absolute parts].
  split_and!; [done| |congruence].
  rewrite follow_app, Hpd. unfold nb_parents_of. rewrite follow_ups.
  rewrite follow_down, <- Hpt; [done|].
  intros Hin. apply Htarget. rewrite Hpt. apply elem_of_app. by right.
Qed.

Lemma relative_to_inl p other :
  relative_to p other = inl ValueError ↔
  ¬ (is_absolute p = is_absolute other ∧ parts other `prefix_of` parts p).
Proof.
  unfold relative_to. case_bool_decide as Hc.
  - split; [done|]. intros Hn. exfalso. apply Hn.
    destruct Hc as [Ha Hpre]. split; [done|].
    exists (drop (length (parts other)) (parts p)).
    by rewrite <- Hpre at 1; rewrite take_drop.
  - split; [|done]. intros _ [Ha [k Hk]]. apply Hc. split; [done|].
    by rewrite Hk, take_app_length.
Qed.

(** X18. [do_symlink] raises [ValueError], and runs nothing, exactly when
    the target path or the directory of the link is not the root of the
    repository or below it. *)
Theorem do_symlink_raises_outside_the_root getcwd ROOT_PATH link_path target_path :
  do_symlink getcwd ROOT_PATH link_path target_path = inl ValueError ↔
  ¬ (is_absolute target_path = is_absolute ROOT_PATH ∧
     parts ROOT_PATH `prefix_of` parts target_path ∧
     is_absolute link_path = is_absolute ROOT_PATH ∧
     parts ROOT_PATH `prefix_of` removelast (parts link_path)).
Proof.
  unfold do_symlink, relative_target. cbv zeta.
  pose proof (relative_to_inl target_path ROOT_PATH) as Ht.
  pose proof (relative_to_inl (parent link_path) ROOT_PATH) as Hd.
  cbn [parent is_absolute parts] in Hd.
  destruct (relative_to target_path ROOT_PATH) as [[]|t];
    destruct (relative_to (parent link_path) ROOT_PATH) as [[]|d].
  - split; [|done]. intros _ (? & ? & _). by apply Ht.
  - split; [|done]. intros _ (? & ? & _). by apply Ht.
  - split; [|done]. intros _ (_ & _ & ? & ?). by apply Hd.
  - split; [done|]. intros Hn. exfalso. apply Hn.
    destruct (decide (is_absolute target_path = is_absolute ROOT_PATH
                      ∧ parts ROOT_PATH `prefix_of` parts target_path))
      as [[? ?]|Hnt]; [|by apply Ht in Hnt].
    destruct (decide (is_absolute link_path = is_absolute ROOT_PATH
                      ∧ parts ROOT_PATH `prefix_of` removelast (parts link_path)))
      as [[? ?]|Hnd]; [done|by apply Hd in Hnd].
Qed.






End SymlinkProperties.

(** * The further properties, run on concrete inputs *)
Section MoreScenarios.
Import Scenario TransactionBehaviour.

Lemma dialogue_eqb_refl (d : LedgerApiDialogue) : dialogue_eqb d d = true.
Proof. by apply bool_decide_eq_true. Qed.

Lemma reply_callbacks_raise_atomically_witness :
  (finish_processing (dialogue 9 "A") two_requests).1 = Raised ValueError ∧
  failed_processing (dialogue 9 "A") two_requests = (Raised ValueError, two_requests).
Proof.
  assert ((finish_processing (dialogue 9 "A") two_requests).1 = Raised ValueError)
    as Hraised by reflexivity.
  destruct (reply_callbacks_raise_atomically two_requests (dialogue 9 "A") ValueError
              (or_introl Hraised)) as (_ & _ & Hfailed & _).
  split; [exact Hraised|exact Hfailed].
Defined.

Lemma idle_scheduler_stays_idle_witness :
  processing (transaction idle_skill) = None ∧
  waiting (transaction idle_skill) = [] ∧
  ticks 100 idle_skill = idle_skill.
Proof.
  split; [reflexivity|]. split; [reflexivity|].
  exact (idle_scheduler_stays_idle idle_skill 100 eq_refl eq_refl).
Defined.

Lemma a_reply_is_accepted_only_once_witness :
  let c := ticks 1 two_requests in
  processing_eq (processing (transaction c)) (dialogue 1 "A") = true ∧
  (label 1 ∉ timedout (transaction c)) ∧
  ∃ c',
    finish_processing (dialogue 1 "A") c = (Returned tt, c') ∧
    finish_processing (dialogue 1 "A") c' = (Raised ValueError, c').
Proof.
  cbv zeta.
  assert (label 1 ∉ timedout (transaction (ticks 1 two_requests))) as Hnotin
    by (vm_compute; discriminate).
  split; [reflexivity|]. split; [exact Hnotin|].
  destruct (a_reply_is_accepted_only_once (ticks 1 two_requests) (dialogue 1 "A")
              eq_refl Hnotin) as (c' & Hfirst & Hsecond & _).
  exists c'. split; [exact Hfirst|exact Hsecond].
Defined.

Lemma a_timed_out_dialogue_gets_one_late_reply_witness :
  let c := ticks 4 two_requests in
  processing (transaction c) = Some (dialogue 1 "A") ∧
  (processing_time (transaction c) <=? max_processing (transaction c))%float = false ∧
  (label 1 ∉ timedout (transaction c)) ∧
  processing_eq (processing (transaction (step c Tick))) (dialogue 1 "A") = false ∧
  ∃ c',
    finish_processing (dialogue 1 "A") (step c Tick) = (Returned tt, c') ∧
    finish_processing (dialogue 1 "A") c' = (Raised ValueError, c').
Proof.
  cbv zeta.
  assert (label 1 ∉ timedout (transaction (ticks 4 two_requests))) as Hnotin
    by (vm_compute; discriminate).
  split; [reflexivity|]. split; [reflexivity|]. split; [exact Hnotin|].
  split; [reflexivity|].
  destruct (a_timed_out_dialogue_gets_one_late_reply (ticks 4 two_requests)
              (dialogue 1 "A") eq_refl eq_refl Hnotin eq_refl)
    as (c' & _ & Hfirst & _ & Hsecond).
  exists c'. split; [exact Hfirst|exact Hsecond].
Defined.

Lemma answered_requests_are_served_in_queue_order_witness :
  processing (transaction two_requests) = None ∧
  waiting (transaction (Nat.iter 2 serve two_requests)) = [] ∧
  payload <$> (submissions ["A"; "B"] (ledger_api_dialogues two_requests)).1
    = ["A"; "B"] ∧
  outbox (Nat.iter 2 serve two_requests) =
    LedgerApiMsg <$> (submissions ["A"; "B"] (ledger_api_dialogues two_requests)).1.
Proof.
  split; [reflexivity|].
  destruct (answered_requests_are_served_in_queue_order two_requests
              dialogue_eqb_refl eq_refl) as (Hw & _ & _ & Ho & _).
  split; [exact Hw|]. split; [reflexivity|exact Ho].
Defined.

Lemma a_failing_request_is_retried_without_limit_witness :
  let c := ticks 1 one_request in
  processing (transaction c) = Some (dialogue 1 "A") ∧
  waiting (transaction c) = [] ∧
  associated_fipa_dialogue <$> processing (transaction (Nat.iter 3 fail_and_retry c))
    = Some "A" ∧
  ∃ sent : list LedgerApiMessage,
    outbox (Nat.iter 3 fail_and_retry c) = outbox c ++ (LedgerApiMsg <$> sent) ∧
    length sent = 3.
Proof.
  cbv zeta. split; [reflexivity|]. split; [reflexivity|].
  destruct (a_failing_request_is_retried_without_limit (ticks 1 one_request)
              (dialogue 1 "A") 3 dialogue_eqb_refl eq_refl eq_refl)
    as (Hslot & _ & _ & Hsent).
  split; [exact Hslot|exact Hsent].
Defined.

Lemma an_absorbed_tick_interval_never_times_out_witness :
  let c := ticks 1 frozen_clock in
  processing (transaction c) = Some (dialogue 1 "A") ∧
  (processing_time (transaction c) + tick_interval (transaction c))%float =
    processing_time (transaction c) ∧
  ticks 1000 c = c.
Proof.
  cbv zeta. split; [reflexivity|]. split; [reflexivity|].
  exact (an_absorbed_tick_interval_never_times_out (ticks 1 frozen_clock)
           (dialogue 1 "A") 1000 eq_refl eq_refl eq_refl).
Defined.

Lemma search_act_searches_when_no_transaction_waits_witness :
  is_searching (strategy searching_skill) = true ∧
  waiting (transaction searching_skill) = [] ∧
  ∃ c' msg,
    SearchBehaviour.act searching_skill = (Returned tt, c') ∧
    outbox c' = [OefSearchMsg msg] ∧
    payload msg = "query".
Proof.
  split; [reflexivity|]. split; [reflexivity|].
  destruct (search_act_searches_when_no_transaction_waits searching_skill
              eq_refl eq_refl)
    as (c' & q & st & msg & registry & Eq & Ec & Hrun & Ho & _).
  injection Eq as <- <-. injection Ec as <- <-.
  eexists c', _. split; [exact Hrun|]. split; [exact Ho|reflexivity].
Defined.

Lemma get_dialogues_by_type_counts_witness :
  NoDup (Profiling.id <$> Profiling.small_heap) ∧
  ∃ m,
    Profiling.get_dialogues_by_type Profiling.small_heap = inr m ∧
    m !! "FipaDialogue" = Some 2 ∧
    m !! "LedgerApiDialogue" = Some 1 ∧
    m !! "dict" = None ∧
    m !! Profiling.LABELS_KEY = Some 3.
Proof.
  assert (NoDup (Profiling.id <$> Profiling.small_heap)) as Hnd
    by compute_done.
  split; [exact Hnd|].
  destruct (get_dialogues_by_type_counts Profiling.small_heap Hnd)
    as (m & Hrun & Hkey & Hnames).
  exists m. split; [exact Hrun|].
  split; [exact (Hnames "FipaDialogue" ltac:(discriminate))|].
  split; [exact (Hnames "LedgerApiDialogue" ltac:(discriminate))|].
  split; [exact (Hnames "dict" ltac:(discriminate))|exact Hkey].
Defined.

Lemma relative_target_leads_to_the_target_witness :
  let link := Symlinks.sub (Symlinks.sub Symlinks.checkout "scripts") "link" in
  let target := Symlinks.sub (Symlinks.sub Symlinks.checkout "aea") "skills" in
  Symlinks.relative_target Symlinks.checkout link target =
    inr {| Symlinks.is_absolute := false;
           Symlinks.parts := [".."; "aea"; "skills"] |} ∧
  Symlinks.follow [".."; "aea"; "skills"] ["home"; "dev"; "open-aea"; "scripts"] =
    ["home"; "dev"; "open-aea"; "aea"; "skills"].
Proof.
  cbv zeta.
  assert (".." ∉ ["home"; "dev"; "open-aea"; "scripts"; "link"]) as Hlink
    by compute_done.
  assert (".." ∉ ["home"; "dev"; "open-aea"; "aea"; "skills"]) as Htarget
    by compute_done.
  split; [reflexivity|].
  exact (proj1 (proj2 (relative_target_leads_to_the_target Symlinks.checkout
           (Symlinks.sub (Symlinks.sub Symlinks.checkout "scripts") "link")
           (Symlinks.sub (Symlinks.sub Symlinks.checkout "aea") "skills")
           _ eq_refl Hlink Htarget))).
Defined.

End MoreScenarios.
